(** * Icon generator of readest-app (src-tauri/icons/generate_icons.py)

    A shallow embedding of [generate_icons.py] and of the part of its
    environment that the script talks to: the working directory, the
    standard output, and the three Pillow calls it makes
    ([Image.open], [Image.resize], [Image.save]).

    The script itself is translated statement by statement.  Pillow and
    the operating system are not part of the repository; they are given
    a small executable model, documented where it abstracts. *)

From Stdlib Require Import ZArith Lia List String Ascii Permutation DecimalString.
From stdpp Require Import base gmap list strings fin_maps.

Local Open Scope string_scope.
Local Open Scope Z_scope.

(** Strings are appended with [+:+]; [++] is kept for lists. *)
Disable Notation "_ ++ _" : string_scope.

(* ===================================================================== *)
(** ** Python strings and paths *)
(* ===================================================================== *)

Module Str.

(** [s.endswith(suffix)] *)
Definition endswith (s suffix : string) : bool :=
  let n := String.length s in
  let m := String.length suffix in
  (m <=? n)%nat && String.eqb (substring (n - m) m s) suffix.

(** [str(n)] for a Python [int], as used by an f-string field. *)
Definition of_int (n : Z) : string := NilZero.string_of_int (Z.to_int n).

(** [c.lower()] on one ASCII character. *)
Definition lower_ascii (c : ascii) : ascii :=
  let n := nat_of_ascii c in
  if ((65 <=? n) && (n <=? 90))%nat then ascii_of_nat (n + 32) else c.

(** Longest prefix of [l] whose elements all fail [stop], and the rest. *)
Fixpoint span (stop : ascii -> bool) (l : list ascii) : list ascii * list ascii :=
  match l with
  | [] => ([], [])
  | c :: r => if stop c then ([], l)
              else let '(a, b) := span stop r in (c :: a, b)
  end.

Definition is_slash (c : ascii) : bool := Ascii.eqb c "/".
Definition is_dot (c : ascii) : bool := Ascii.eqb c ".".

(** The directory part of a relative path: everything before the last
    ["/"], and [""] (the working directory) when there is none.  On
    paths without doubled or trailing separators this is
    [posixpath.dirname]. *)
Definition dirname (p : string) : string :=
  let '(_, r) := span is_slash (rev (list_ascii_of_string p)) in
  string_of_list_ascii (rev (tl r)).

(** [os.path.splitext(p)[1].lower()]: the text from the last dot of the
    last path component, provided something other than dots precedes it
    in that component; [""] otherwise. *)
Definition ext (p : string) : string :=
  let '(base_rev, _) := span is_slash (rev (list_ascii_of_string p)) in
  let '(e_rev, r) := span is_dot base_rev in
  match r with
  | [] => ""
  | _dot :: stem_rev =>
      if forallb is_dot stem_rev then ""
      else string_of_list_ascii (map lower_ascii ("."%char :: rev e_rev))
  end.

End Str.

(* ===================================================================== *)
(** ** Rasters, image files and the working directory *)
(* ===================================================================== *)

(** [Image.Resampling] *)
Inductive Resampling := NEAREST | BOX | BILINEAR | HAMMING | BICUBIC | LANCZOS.

(** Pixel data is kept symbolic: either the uninterpreted payload of a
    file that was on disk before the run, or the result of resampling
    other pixel data from one size to another.  Nothing is assumed about
    the filters, so the term records how a raster was computed.  A
    payload is [Stored] when its pixel mode is one the PNG encoder
    accepts (1, L, LA, P, RGB, RGBA, I) and [Unsavable] when it is one
    the encoder refuses (CMYK, YCbCr, LAB, HSV, F). *)
Inductive pixels :=
| Stored (payload : N)
| Resampled (flt : Resampling) (from : pixels) (src_size dst_size : Z * Z)
| Unsavable (payload : N).

(** Resampling keeps the pixel mode. *)
Fixpoint png_mode (px : pixels) : bool :=
  match px with
  | Stored _ => true
  | Resampled _ from _ _ => png_mode from
  | Unsavable _ => false
  end.

Record raster := { r_size : Z * Z; r_pix : pixels }.

Inductive format := PNG | ICO.

(** What a file holds.  [Damaged] is a file whose image header can be
    read (so its size is known) but whose pixel data cannot; [Blob] is
    anything that is not an image, an empty file included; [Foreign] is
    one image in a raster format other than PNG and ICO (JPEG, TIFF,
    ...), which is where the modes that PNG refuses come from. *)
Inductive content :=
| Png (r : raster)
| Ico (frames : list raster)
| Damaged (sz : Z * Z)
| Blob
| Foreign (r : raster).

(** The working directory, by relative path.  [dirs] maps every existing
    directory ([""] is the working directory itself) to whether new files
    may be created in it; [files] maps every existing regular file to
    its content.  Files are taken to be writable by the process; free
    space is not modelled. *)
Record filesystem := { dirs : gmap string bool; files : gmap string content }.

#[global] Instance Resampling_eq_dec : EqDecision Resampling.
Proof. solve_decision. Defined.
#[global] Instance pixels_eq_dec : EqDecision pixels.
Proof. solve_decision. Defined.
#[global] Instance raster_eq_dec : EqDecision raster.
Proof. solve_decision. Defined.
#[global] Instance format_eq_dec : EqDecision format.
Proof. solve_decision. Defined.
#[global] Instance content_eq_dec : EqDecision content.
Proof. solve_decision. Defined.

Definition area (r : raster) : Z := fst (r_size r) * snd (r_size r).

(** The image an ICO file opens as: the frame of largest area, the
    earliest one among equals. *)
Fixpoint largest (frames : list raster) : option raster :=
  match frames with
  | [] => None
  | f :: rest =>
      match largest rest with
      | Some g => if area f <? area g then Some g else Some f
      | None => Some f
      end
  end.

(** What identifying a file yields: its size and, when readable, its
    pixel data. *)
Definition header (c : content) : option ((Z * Z) * option pixels) :=
  match c with
  | Png r => Some (r_size r, Some (r_pix r))
  | Ico frames => (fun r => (r_size r, Some (r_pix r))) <$> largest frames
  | Damaged sz => Some (sz, None)
  | Blob => None
  | Foreign r => Some (r_size r, Some (r_pix r))
  end.

(** The raster a file decodes to, if it does. *)
Definition decode (c : content) : option raster :=
  match header c with
  | Some (sz, Some px) => Some {| r_size := sz; r_pix := px |}
  | _ => None
  end.

Definition decoded_size (c : content) : option (Z * Z) := r_size <$> decode c.

(* ===================================================================== *)
(** ** The interpreter state and its monad *)
(* ===================================================================== *)

(** A Pillow image object.  [Image.open] is lazy: it returns an object
    that knows its size but has not read its pixel data ([Lazy]; [None]
    when the data on disk is unreadable); the first operation that needs
    pixels loads them in place. *)
Inductive image_obj :=
| Lazy (sz : Z * Z) (data : option pixels)
| Loaded (r : raster).

Definition raster_of (o : image_obj) : option raster :=
  match o with
  | Lazy sz (Some px) => Some {| r_size := sz; r_pix := px |}
  | Lazy _ None => None
  | Loaded r => Some r
  end.

Definition loc := nat.

(** [stdout] lists the lines printed so far, one per [print] call;
    [heap] holds the image objects, addressed by position; [trace] is the
    list of paths of files written so far, in order (a ghost history of
    the effects on [fs]). *)
Record world := {
  fs : filesystem;
  stdout : list string;
  heap : list image_obj;
  trace : list string
}.

(** [TruncatedImageError] is Pillow's [OSError] for pixel data that
    cannot be read, [EncoderError] its [OSError] for a mode the encoder
    cannot write. *)
Inductive exn :=
| FileNotFoundError (path : string)
| PermissionError (path : string)
| IsADirectoryError (path : string)
| NotADirectoryError (path : string)
| UnidentifiedImageError (path : string)
| TruncatedImageError
| EncoderError
| ValueError (msg : string)
| SystemError.

Inductive result (A : Type) :=
| Return (a : A)
| Raise (e : exn).
Arguments Return {A} a.
Arguments Raise {A} e.

Definition py (A : Type) : Type := world -> result A * world.

Definition ret {A} (a : A) : py A := fun w => (Return a, w).
Definition raise {A} (e : exn) : py A := fun w => (Raise e, w).
Definition bind {A B} (m : py A) (k : A -> py B) : py B :=
  fun w => match m w with
           | (Return a, w') => k a w'
           | (Raise e, w') => (Raise e, w')
           end.

Declare Scope py_scope.
Delimit Scope py_scope with py.
Notation "x <- m ;; k" := (bind m (fun x => k))
  (at level 62, m at next level, right associativity) : py_scope.
Notation "m ;;; k" := (bind m (fun _ => k))
  (at level 62, right associativity) : py_scope.
Local Open Scope py_scope.

(** [for x in items: body(x)]; an exception leaves the loop. *)
Fixpoint for_in {X} (items : list X) (body : X -> py unit) : py unit :=
  match items with
  | [] => ret tt
  | x :: rest => body x ;;; for_in rest body
  end.

(** [print(line)] *)
Definition print (line : string) : py unit := fun w =>
  (Return tt,
   {| fs := fs w; stdout := stdout w ++ [line]; heap := heap w; trace := trace w |}).

(** Allocation of a fresh image object. *)
Definition alloc (o : image_obj) : py loc := fun w =>
  (Return (length (heap w)),
   {| fs := fs w; stdout := stdout w; heap := heap w ++ [o]; trace := trace w |}).

(** Whether [open(path, "w+b")] goes through, and the error if not: the
    directory of [path] must exist (a regular file in its place is not a
    directory), [path] must not itself be a directory, and a file that
    is not there yet needs a directory that accepts new files. *)
Definition check_write (f : filesystem) (path : string) : option exn :=
  match dirs f !! Str.dirname path with
  | None =>
      if bool_decide (is_Some (files f !! Str.dirname path))
      then Some (NotADirectoryError path)
      else Some (FileNotFoundError path)
  | Some may_create =>
      if bool_decide (is_Some (dirs f !! path)) then Some (IsADirectoryError path)
      else if may_create || bool_decide (is_Some (files f !! path)) then None
      else Some (PermissionError path)
  end.

Definition put_file (path : string) (c : content) (f : filesystem) : filesystem :=
  {| dirs := dirs f; files := <[path := c]> (files f) |}.

(** What a failed encoding leaves at [path]: opening has emptied a file
    that was there; a file that opening created is removed again. *)
Definition truncate_file (path : string) (f : filesystem) : filesystem :=
  match files f !! path with
  | Some _ => put_file path Blob f
  | None => f
  end.

(** Opening [path] for writing and encoding into it; [c] is [None] when
    the encoder refuses the image. *)
Definition write_file (path : string) (c : option content) : py unit := fun w =>
  match check_write (fs w) path with
  | Some e => (Raise e, w)
  | None =>
      match c with
      | Some c =>
          (Return tt,
           {| fs := put_file path c (fs w); stdout := stdout w; heap := heap w;
              trace := trace w ++ [path] |})
      | None =>
          (Raise EncoderError,
           {| fs := truncate_file path (fs w); stdout := stdout w; heap := heap w;
              trace := trace w |})
      end
  end.

(* ===================================================================== *)
(** ** The Pillow calls of the script *)
(* ===================================================================== *)

Module Image.

(** [Image.open(path)]: identifies the file and returns a fresh lazy
    image object; the pixel data is not read yet. *)
Definition open (path : string) : py loc := fun w =>
  match files (fs w) !! path with
  | None =>
      if bool_decide (is_Some (dirs (fs w) !! path))
      then (Raise (IsADirectoryError path), w)
      else (Raise (FileNotFoundError path), w)
  | Some c =>
      match header c with
      | None => (Raise (UnidentifiedImageError path), w)
      | Some (sz, data) => alloc (Lazy sz data) w
      end
  end.

(** [im.load()]: reads the pixel data into the object, once. *)
Definition load (im : loc) : py raster := fun w =>
  match heap w !! im with
  | Some (Loaded r) => (Return r, w)
  | Some (Lazy sz (Some px)) =>
      let r := {| r_size := sz; r_pix := px |} in
      (Return r,
       {| fs := fs w; stdout := stdout w; heap := <[im := Loaded r]> (heap w);
          trace := trace w |})
  | Some (Lazy _ None) => (Raise TruncatedImageError, w)
  | None => (Raise SystemError, w)
  end.

Definition resample (flt : Resampling) (r : raster) (size : Z * Z) : raster :=
  {| r_size := size; r_pix := Resampled flt (r_pix r) (r_size r) size |}.

(** [im.resize(size, resample)]: loads [im], then returns a new image;
    a plain copy when [im] already has the requested size. *)
Definition resize (im : loc) (size : Z * Z) (flt : Resampling) : py loc :=
  r <- load im ;;
  if decide (r_size r = size) then alloc (Loaded r)
  else if (fst size <=? 0) || (snd size <=? 0)
       then raise (ValueError "height and width must be > 0")
       else alloc (Loaded (resample flt r size)).

(** The size [im.thumbnail(req)] shrinks an image of size [(w, h)] to:
    the largest size within [req] of the same aspect ratio, each side
    rounded to the nearer integer and at least 1; [None] when the image
    already fits.  Ratios are compared exactly, by cross-multiplication. *)
Definition thumbnail_size (im_size req : Z * Z) : option (Z * Z) :=
  let '(w, h) := im_size in
  let '(x, y) := req in
  if (w <=? x) && (h <=? y) then None
  else if w * y <=? x * h then
    let fl := (y * w) / h in
    let ce := - ((- (y * w)) / h) in
    let key n := Z.abs (w * y - n * h) in
    Some (Z.max (if key ce <? key fl then ce else fl) 1, y)
  else
    let fl := (x * h) / w in
    let ce := - ((- (x * h)) / w) in
    let key n := Z.abs (w * n - x * h) in
    let pick := if fl =? 0 then fl
                else if key ce * fl <? key fl * ce then ce else fl in
    Some (x, Z.max pick 1).

Definition thumbnail (r : raster) (req : Z * Z) : raster :=
  match thumbnail_size (r_size r) req with
  | None => r
  | Some sz => if decide (r_size r = sz) then r else resample LANCZOS r sz
  end.

(** [sorted(set(sizes))] on pairs of integers. *)
Definition size_ltb (a b : Z * Z) : bool :=
  (fst a <? fst b) || ((fst a =? fst b) && (snd a <? snd b)).

Fixpoint insert_size (a : Z * Z) (l : list (Z * Z)) : list (Z * Z) :=
  match l with
  | [] => [a]
  | b :: r => if size_ltb a b then a :: l
              else if size_ltb b a then b :: insert_size a r
              else l
  end.

Definition sorted_set (sizes : list (Z * Z)) : list (Z * Z) :=
  foldr insert_size [] sizes.

Definition default_ico_sizes : list (Z * Z) :=
  [(16, 16); (24, 24); (32, 32); (48, 48); (64, 64); (128, 128); (256, 256)].

(** The images the ICO encoder embeds: one per requested size, in
    increasing order, skipping sizes larger than the image or than
    256; the image itself where the size matches, a thumbnail of it
    otherwise. *)
Definition ico_frames (r : raster) (sizes : list (Z * Z)) : list raster :=
  flat_map
    (fun sz =>
       if (fst (r_size r) <? fst sz) || (snd (r_size r) <? snd sz)
          || (256 <? fst sz) || (256 <? snd sz)
       then []
       else if decide (r_size r = sz) then [r] else [thumbnail r sz])
    (sorted_set sizes).

(** The registered file extensions.  Pillow knows many more formats;
    only the two that the script's file names reach are kept, and every
    other extension counts as unregistered. *)
Definition registry (ext : string) : option format :=
  if String.eqb ext ".png" then Some PNG
  else if String.eqb ext ".ico" then Some ICO
  else None.

(** What the encoder writes when it accepts the image. *)
Definition encode (fmt : format) (r : raster) (sizes : option (list (Z * Z))) : content :=
  match fmt with
  | PNG => Png r
  | ICO => Ico (ico_frames r (default default_ico_sizes sizes))
  end.

(** Whether the encoder accepts the image: PNG needs a mode it can
    write, and an ICO stores each of its frames as a PNG. *)
Definition encodable (fmt : format) (r : raster) (sizes : option (list (Z * Z))) : bool :=
  match fmt with
  | PNG => png_mode (r_pix r)
  | ICO => forallb (fun fr => png_mode (r_pix fr))
             (ico_frames r (default default_ico_sizes sizes))
  end.

(** [im.save(filename, format=..., sizes=...)]: loads [im], picks the
    format (from the extension unless [format] is given), then opens
    the file for writing and encodes into it. *)
Definition save (im : loc) (filename : string) (fmt : option format)
    (sizes : option (list (Z * Z))) : py unit :=
  r <- load im ;;
  f <- match fmt with
       | Some f => ret f
       | None =>
           match registry (Str.ext filename) with
           | Some f => ret f
           | None => raise (ValueError ("unknown file extension: " +:+ Str.ext filename))
           end
       end ;;
  write_file filename
    (if encodable f r sizes then Some (encode f r sizes) else None).

End Image.

(* ===================================================================== *)
(** ** generate_icons.py *)
(* ===================================================================== *)

(** A dict literal with distinct keys, as its [items()] in insertion
    order. *)
Abbreviation size_table := (list (string * Z)).

Definition sizes : size_table :=
  [ ("32x32.png", 32);
    ("64x64.png", 64);
    ("128x128.png", 128);
    ("128x128@2x.png", 256);
    ("icon.ico", 32) ].

Definition ios_sizes : size_table :=
  [ ("ios/AppIcon-20x20@1x.png", 20);
    ("ios/AppIcon-20x20@2x.png", 40);
    ("ios/AppIcon-20x20@3x.png", 60);
    ("ios/AppIcon-29x29@1x.png", 29);
    ("ios/AppIcon-29x29@2x.png", 58);
    ("ios/AppIcon-29x29@3x.png", 87);
    ("ios/AppIcon-40x40@1x.png", 40);
    ("ios/AppIcon-40x40@2x.png", 80);
    ("ios/AppIcon-40x40@3x.png", 120);
    ("ios/AppIcon-60x60@2x.png", 120);
    ("ios/AppIcon-60x60@3x.png", 180);
    ("ios/AppIcon-76x76@1x.png", 76);
    ("ios/AppIcon-76x76@2x.png", 152);
    ("ios/AppIcon-83.5x83.5@2x.png", 167);
    ("ios/AppIcon-512@2x.png", 1024) ].

Definition store_sizes : size_table :=
  [ ("Square30x30Logo.png", 30);
    ("Square44x44Logo.png", 44);
    ("Square71x71Logo.png", 71);
    ("Square89x89Logo.png", 89);
    ("Square107x107Logo.png", 107);
    ("Square142x142Logo.png", 142);
    ("Square150x150Logo.png", 150);
    ("Square284x284Logo.png", 284);
    ("Square310x310Logo.png", 310);
    ("StoreLogo.png", 50) ].

(** [f"Generated {filename} ({size}x{size})"] *)
Definition progress_line (filename : string) (size : Z) : string :=
  "Generated " +:+ filename +:+ " (" +:+ Str.of_int size +:+ "x" +:+ Str.of_int size +:+ ")".

(** Body of the first loop (lines 20-28). *)
Definition desktop_step (main_icon : loc) (item : string * Z) : py unit :=
  let '(filename, size) := item in
  (if Str.endswith filename ".ico" then
     resized <- Image.resize main_icon (size, size) LANCZOS ;;
     Image.save resized filename (Some ICO) (Some [(size, size)])
   else
     resized <- Image.resize main_icon (size, size) LANCZOS ;;
     Image.save resized filename None None) ;;;
  print (progress_line filename size).

(** Body of the second loop (lines 50-52). *)
Definition ios_step (main_icon : loc) (item : string * Z) : py unit :=
  let '(filename, size) := item in
  resized <- Image.resize main_icon (size, size) LANCZOS ;;
  (Image.save resized filename None None ;;;
  print (progress_line filename size)).

(** Body of the third loop (lines 69-71). *)
Definition store_step (main_icon : loc) (item : string * Z) : py unit :=
  let '(filename, size) := item in
  resized <- Image.resize main_icon (size, size) LANCZOS ;;
  (Image.save resized filename None None ;;;
  print (progress_line filename size)).

(** [generate_icons()] with its three dict literals taken as parameters,
    so that the same body can be run on rearranged tables. *)
Definition generate_icons_with (sizes ios_sizes store_sizes : size_table) : py unit :=
  main_icon <- Image.open "icon.png" ;;
  (for_in sizes (desktop_step main_icon) ;;;
  (for_in ios_sizes (ios_step main_icon) ;;;
  for_in store_sizes (store_step main_icon))).

(** [generate_icons()] (lines 5-71). *)
Definition generate_icons : py unit :=
  generate_icons_with sizes ios_sizes store_sizes.

(** The [__main__] block (lines 73-75). *)
Definition main : py unit :=
  generate_icons ;;;
  print "All icons generated successfully!".

(** Every entry of every table, in processing order. *)
Definition all_entries : size_table := (sizes ++ ios_sizes ++ store_sizes)%list.

(** A process start: nothing printed, no object allocated, nothing
    written yet. *)
Definition boot (f : filesystem) : world :=
  {| fs := f; stdout := []; heap := []; trace := [] |}.

(* ===================================================================== *)
(** ** What one entry produces *)
(* ===================================================================== *)

(** The raster [main_icon.resize((size, size), LANCZOS)] denotes when
    [main_icon] denotes [src]. *)
Definition resized_of (src : raster) (size : Z) : raster :=
  if decide (r_size src = (size, size)) then src
  else Image.resample LANCZOS src (size, size).

(** File content written by the second and third loops, where Pillow
    chooses the format from the file name. *)
Definition plain_output (src : raster) (item : string * Z) : content :=
  Image.encode (default PNG (Image.registry (Str.ext item.1)))
    (resized_of src item.2) None.

(** File content written by the first loop. *)
Definition desktop_output (src : raster) (item : string * Z) : content :=
  if Str.endswith item.1 ".ico"
  then Image.encode ICO (resized_of src item.2) (Some [(item.2, item.2)])
  else plain_output src item.

Inductive table_id := Desktop | Ios | Store.

Definition step_of (t : table_id) : loc -> string * Z -> py unit :=
  match t with
  | Desktop => desktop_step
  | Ios => ios_step
  | Store => store_step
  end.

Definition output_of (t : table_id) : raster -> string * Z -> content :=
  match t with
  | Desktop => desktop_output
  | Ios | Store => plain_output
  end.

(** The entries of three tables in processing order, each with the loop
    that handles it. *)
Definition schedule (t1 t2 t3 : size_table) : list (table_id * (string * Z)) :=
  (map (pair Desktop) t1 ++ map (pair Ios) t2 ++ map (pair Store) t3)%list.

(** Entries the loops can process: a positive size and a file name with a
    registered extension. *)
Definition item_ok (item : string * Z) : bool :=
  (0 <? item.2) && bool_decide (is_Some (Image.registry (Str.ext item.1))).

(** The world after the entries [done] have been processed successfully
    from [w], leaving heap [h]. *)
Definition commit (src : raster) (w : world) (done : list (table_id * (string * Z)))
    (h : list image_obj) : world :=
  {| fs := foldl (fun f j => put_file j.2.1 (output_of j.1 src j.2) f) (fs w) done;
     stdout := stdout w ++ map (fun j => progress_line j.2.1 j.2.2) done;
     heap := h;
     trace := trace w ++ map (fun j => j.2.1) done |}.

(** The image object at [l] denotes the raster [src]. *)
Definition icon_at (l : loc) (src : raster) (h : list image_obj) : Prop :=
  exists o, h !! l = Some o /\ raster_of o = Some src.

(* ===================================================================== *)
(** ** Vocabulary of the proofs *)
(* ===================================================================== *)

Definition set_heap (h : list image_obj) (w : world) : world :=
  {| fs := fs w; stdout := stdout w; heap := h; trace := trace w |}.

(** Heap left by one loop step. *)
Definition heap_step (l : loc) (src : raster) (s : Z) (h : list image_obj) :=
  (<[l := Loaded src]> h ++ [Loaded (resized_of src s)])%list.

Definition path_of (j : table_id * (string * Z)) : string := j.2.1.

(** The three loops as one pass over the schedule. *)
Definition run_schedule (l : loc) (js : list (table_id * (string * Z))) : py unit :=
  for_in js (fun j => step_of j.1 l j.2).

(** The decoded source image, if [icon.png] is there and decodes. *)
Definition source (f : filesystem) : option raster :=
  files f !! "icon.png" ≫= decode.

(** The files after writing the pairs (path, content) of [kvs] in order. *)
Definition write_all (kvs : list (string * content)) (m : gmap string content)
    : gmap string content :=
  foldl (fun m kv => <[kv.1 := kv.2]> m) m kvs.

(** The pairs (path, content) a list of scheduled entries writes. *)
Definition outputs (src : raster) (js : list (table_id * (string * Z)))
    : list (string * content) :=
  map (fun j => (path_of j, output_of j.1 src j.2)) js.

#[global] Instance table_id_eq_dec : EqDecision table_id.
Proof. solve_decision. Defined.

#[global] Instance exn_eq_dec : EqDecision exn.
Proof. solve_decision. Defined.

(** The schedule of the script as written. *)
Definition gen_schedule : list (table_id * (string * Z)) :=
  schedule sizes ios_sizes store_sizes.

(** One image of the requested size: a one-frame ICO for a name ending
    in [.ico], a PNG otherwise. *)
Definition expected (src : raster) (item : string * Z) : content :=
  if Str.endswith item.1 ".ico"
  then Ico [resized_of src item.2]
  else Png (resized_of src item.2).

(** Entries whose handling follows the script's convention: a name ending
    in [.ico] sits in the first table (with a size an ICO can hold), and
    every other name has the PNG extension. *)
Definition conventional (j : table_id * (string * Z)) : bool :=
  if Str.endswith j.2.1 ".ico"
  then bool_decide (j.1 = Desktop) && (0 <? j.2.2) && (j.2.2 <=? 256)
  else bool_decide (Image.registry (Str.ext j.2.1) = Some PNG).

Definition progress_of (item : string * Z) : string := progress_line item.1 item.2.

(** A working directory with a non-square 512x300 source and both
    destination directories in place. *)
Definition demo_fs : filesystem :=
  {| dirs := {[ "" := true; "ios" := true ]};
     files := {[ "icon.png" := Png {| r_size := (512, 300); r_pix := Stored 0 |} ]} |}.

(** The same with an unrelated file and a stale output lying around. *)
Definition cluttered_fs : filesystem :=
  {| dirs := dirs demo_fs;
     files := <[ "notes.txt" := Blob ]> (<[ "32x32.png" := Blob ]> (files demo_fs)) |}.

(** The same without the [ios/] directory. *)
Definition no_ios_fs : filesystem :=
  {| dirs := {[ "" := true ]};
     files := {[ "icon.png" := Png {| r_size := (512, 512); r_pix := Stored 0 |} ]} |}.

(** No [ios/] directory either, and a directory sitting where the
    second output of the first table goes. *)
Definition blocked_fs : filesystem :=
  {| dirs := {[ "" := true; "64x64.png" := true ]};
     files := {[ "icon.png" := Png {| r_size := (512, 512); r_pix := Stored 0 |} ]} |}.

(** A working directory without [icon.png]. *)
Definition empty_fs : filesystem :=
  {| dirs := {[ "" := true; "ios" := true ]}; files := ∅ |}.

(** The tables with [icon.ico] moved from the end of the first table to
    the head of the second. *)
Definition sizes_without_ico : size_table :=
  [ ("32x32.png", 32); ("64x64.png", 64); ("128x128.png", 128);
    ("128x128@2x.png", 256) ].

Definition ios_sizes_with_ico : size_table := ("icon.ico", 32) :: ios_sizes.

(** An entry the loops can process and whose name announces its format. *)
Definition entry_regular (e : string * Z) : bool :=
  item_ok e &&
  (if Str.endswith e.1 ".ico" then (0 <? e.2) && (e.2 <=? 256)
   else bool_decide (Image.registry (Str.ext e.1) = Some PNG)).

(** The format of an image file the script can produce. *)
Definition format_of (c : content) : option format :=
  match c with
  | Png _ => Some PNG
  | Ico _ => Some ICO
  | Damaged _ | Blob | Foreign _ => None
  end.

(** Whether the encoder accepts what a loop is about to save. *)
Definition plain_encodable (src : raster) (item : string * Z) : bool :=
  Image.encodable (default PNG (Image.registry (Str.ext item.1)))
    (resized_of src item.2) None.

Definition desktop_encodable (src : raster) (item : string * Z) : bool :=
  if Str.endswith item.1 ".ico"
  then Image.encodable ICO (resized_of src item.2) (Some [(item.2, item.2)])
  else plain_encodable src item.

Definition encodable_of (t : table_id) : raster -> string * Z -> bool :=
  match t with
  | Desktop => desktop_encodable
  | Ios | Store => plain_encodable
  end.

(** The error that stops the run at an entry, if any: the file cannot be
    opened for writing, or the encoder refuses the source's mode. *)
Definition entry_error (f : filesystem) (src : raster) (item : string * Z) : option exn :=
  match check_write f item.1 with
  | Some e => Some e
  | None => if png_mode (r_pix src) then None else Some EncoderError
  end.

(** The world after an attempt at [path] has failed in [w]. *)
Definition spoil (path : string) (w : world) : world :=
  {| fs := match check_write (fs w) path with
           | Some _ => fs w
           | None => truncate_file path (fs w)
           end;
     stdout := stdout w; heap := heap w; trace := trace w |}.

(** Output paths that do not interfere: no path occurs twice and none is
    the directory of another. *)
Definition sound_paths (ps : list string) : Prop :=
  NoDup ps /\ Forall (fun p => Str.dirname p ∉ ps) ps.

(** The exception of a run whose source does not decode. *)
Definition open_error (f : filesystem) : exn :=
  match files f !! "icon.png" with
  | None =>
      if bool_decide (is_Some (dirs f !! "icon.png"))
      then IsADirectoryError "icon.png"
      else FileNotFoundError "icon.png"
  | Some c =>
      match header c with
      | None => UnidentifiedImageError "icon.png"
      | Some _ => TruncatedImageError
      end
  end.

(** The entries before the first one that stops the run, and the error
    of that one. *)
Fixpoint accepted (f : filesystem) (src : raster) (items : list (string * Z))
    : list (string * Z) :=
  match items with
  | [] => []
  | it :: rest =>
      match entry_error f src it with
      | None => it :: accepted f src rest
      | Some _ => []
      end
  end.

Fixpoint refusal (f : filesystem) (src : raster) (items : list (string * Z))
    : option exn :=
  match items with
  | [] => None
  | it :: rest =>
      match entry_error f src it with
      | None => refusal f src rest
      | Some e => Some e
      end
  end.

(** The entries a run started on [f] gets through, and its result. *)
Definition processed (f : filesystem) : list (string * Z) :=
  match source f with
  | None => []
  | Some src => accepted f src all_entries
  end.

Definition verdict (f : filesystem) : result unit :=
  match source f with
  | None => Raise (open_error f)
  | Some src =>
      match refusal f src all_entries with
      | Some e => Raise e
      | None => Return tt
      end
  end.


(** The text of the last [print] of the script (line 75). *)
Definition closing_line : string := "All icons generated successfully!".

(** [r] is the source itself or was resampled directly from the source's
    pixels. *)
Definition from_source (src r : raster) : Prop :=
  r = src \/ r_pix r = Resampled LANCZOS (r_pix src) (r_size src) (r_size r).

(** Entries a schedule can be run on. *)
Definition runnable (src : raster) (js : list (table_id * (string * Z))) : Prop :=
  Forall (fun j => item_ok j.2 = true) js /\
  Forall (fun j => encodable_of j.1 src j.2 = png_mode (r_pix src)) js /\
  sound_paths (map path_of js).

(** How a run on a decodable source ends: after the whole schedule, or
    at the entry that stops it. *)
Definition ending (src : raster) (w : world) (done rest : list (table_id * (string * Z)))
    (h : list image_obj) (r : result unit) (w' : world) : Prop :=
  match r with
  | Return _ => rest = [] /\ w' = commit src w done h
  | Raise e =>
      exists j post,
        rest = j :: post /\ entry_error (fs w) src j.2 = Some e /\
        w' = spoil (path_of j) (commit src w done h)
  end.

(** The working directory that stops the run at [path]: everything in
    place, and a directory sitting at [path]. *)
Definition fs_blocking (path : string) : filesystem :=
  {| dirs := <[ path := true ]> (dirs demo_fs); files := files demo_fs |}.

(* ===================================================================== *)
(** ** Semantics of the calls and of one loop step *)
(* ===================================================================== *)

Lemma set_heap_id w : set_heap (heap w) w = w.
Proof. by destruct w. Qed.

Lemma r_size_resized_of src s : r_size (resized_of src s) = (s, s).
Proof. unfold resized_of. by case_decide. Qed.

Lemma png_mode_resized_of src s :
  png_mode (r_pix (resized_of src s)) = png_mode (r_pix src).
Proof. unfold resized_of. by case_decide. Qed.

Lemma load_run l src w :
  icon_at l src (heap w) ->
  Image.load l w = (Return src, set_heap (<[l := Loaded src]> (heap w)) w).
Proof.
  intros (o & Hl & Ho). unfold Image.load. rewrite Hl.
  destruct o as [sz [px|] | r]; simplify_eq/=; try done.
  rewrite list_insert_id by done. by rewrite set_heap_id.
Qed.

Lemma icon_at_app l src h h' : icon_at l src h -> icon_at l src (h ++ h').
Proof.
  intros (o & Hl & Ho). exists o. split; [|done]. by apply lookup_app_l_Some.
Qed.

Lemma heap_step_icon_at l src s h :
  icon_at l src h -> icon_at l src (heap_step l src s h).
Proof.
  intros H. apply icon_at_app.
  destruct H as (o & Hl & _). exists (Loaded src). split; [|done].
  apply list_lookup_insert_eq. by eapply lookup_lt_Some.
Qed.

Lemma resize_run l src s w :
  icon_at l src (heap w) -> 0 < s ->
  Image.resize l (s, s) LANCZOS w
  = (Return (length (heap w)), set_heap (heap_step l src s (heap w)) w).
Proof.
  intros Hi Hs. unfold Image.resize, bind. rewrite (load_run _ _ _ Hi).
  unfold heap_step, resized_of.
  case_decide; simpl.
  - unfold alloc, set_heap; simpl. by rewrite length_insert.
  - replace (s <=? 0) with false by lia. simpl.
    unfold alloc, set_heap; simpl. by rewrite length_insert.
Qed.

Lemma load_resized l src s w :
  Image.load (length (heap w)) (set_heap (heap_step l src s (heap w)) w)
  = (Return (resized_of src s), set_heap (heap_step l src s (heap w)) w).
Proof.
  unfold Image.load, heap_step; simpl.
  rewrite lookup_app_r by (by rewrite length_insert).
  rewrite length_insert, Nat.sub_diag. done.
Qed.

(** One loop step: the write is refused, or the encoder fails after the
    file has been opened, or the file is written and its line printed. *)
Lemma step_of_run t l src item w :
  icon_at l src (heap w) -> item_ok item = true ->
  step_of t l item w
  = match check_write (fs w) item.1 with
    | Some e => (Raise e, set_heap (heap_step l src item.2 (heap w)) w)
    | None =>
        if encodable_of t src item then
          (Return tt,
           {| fs := put_file item.1 (output_of t src item) (fs w);
              stdout := stdout w ++ [progress_line item.1 item.2];
              heap := heap_step l src item.2 (heap w);
              trace := trace w ++ [item.1] |})
        else
          (Raise EncoderError,
           {| fs := truncate_file item.1 (fs w);
              stdout := stdout w;
              heap := heap_step l src item.2 (heap w);
              trace := trace w |})
    end.
Proof.
  intros Hi Hok. destruct item as [p s].
  apply andb_prop in Hok as [Hs Hext]. apply Z.ltb_lt in Hs.
  apply bool_decide_eq_true in Hext as [f Hf]. simpl in *.
  assert (Hplain : forall w',
    w' = set_heap (heap_step l src s (heap w)) w ->
    bind (Image.save (length (heap w)) p None None)
         (fun _ => print (progress_line p s)) w'
    = match check_write (fs w) p with
      | Some e => (Raise e, set_heap (heap_step l src s (heap w)) w)
      | None =>
          if plain_encodable src (p, s) then
            (Return tt,
             {| fs := put_file p (plain_output src (p, s)) (fs w);
                stdout := stdout w ++ [progress_line p s];
                heap := heap_step l src s (heap w);
                trace := trace w ++ [p] |})
          else
            (Raise EncoderError,
             {| fs := truncate_file p (fs w);
                stdout := stdout w;
                heap := heap_step l src s (heap w);
                trace := trace w |})
      end).
  { intros w' ->. unfold Image.save, bind at 1 2 3. rewrite load_resized.
    rewrite Hf. unfold ret, write_file, plain_output, plain_encodable; simpl.
    rewrite Hf; simpl.
    destruct (check_write (fs w) p); [done|].
    by destruct (Image.encodable f (resized_of src s) None). }
  destruct t; simpl; unfold desktop_step, ios_step, store_step,
    desktop_output, desktop_encodable; simpl.
  - destruct (Str.endswith p ".ico").
    + unfold bind at 1 2. rewrite (resize_run _ _ _ _ Hi Hs).
      unfold Image.save, bind at 1 2. rewrite load_resized.
      unfold ret, write_file, bind; simpl.
      destruct (check_write (fs w) p); [done|].
      unfold Image.encodable; simpl.
      by destruct (forallb _ (Image.ico_frames (resized_of src s) [(s, s)])).
    + unfold bind at 1 2. rewrite (resize_run _ _ _ _ Hi Hs).
      by rewrite <- (Hplain _ eq_refl).
  - unfold bind at 1. rewrite (resize_run _ _ _ _ Hi Hs). by apply Hplain.
  - unfold bind at 1. rewrite (resize_run _ _ _ _ Hi Hs). by apply Hplain.
Qed.

(* ===================================================================== *)
(** ** Semantics of the loops *)
(* ===================================================================== *)

Lemma for_in_app {X} (a b : list X) (f : X -> py unit) w :
  for_in (a ++ b) f w = bind (for_in a f) (fun _ => for_in b f) w.
Proof.
  revert w. induction a as [|x a IH]; intros w; simpl; [done|].
  unfold bind. destruct (f x w) as [[[]|e] w1]; [|done].
  rewrite IH. done.
Qed.

Lemma for_in_map {X Y} (g : X -> Y) (l : list X) (f : Y -> py unit) w :
  for_in (map g l) f w = for_in l (fun x => f (g x)) w.
Proof.
  revert w. induction l as [|x l IH]; intros w; simpl; [done|].
  unfold bind. destruct (f (g x) w) as [[[]|e] w1]; [apply IH|done].
Qed.

Lemma generate_icons_with_schedule t1 t2 t3 w :
  generate_icons_with t1 t2 t3 w
  = bind (Image.open "icon.png")
         (fun main_icon => run_schedule main_icon (schedule t1 t2 t3)) w.
Proof.
  unfold generate_icons_with, bind.
  destruct (Image.open "icon.png" w) as [[l|e] w1]; [|done].
  unfold run_schedule, schedule.
  rewrite for_in_app. unfold bind. rewrite for_in_map. simpl.
  change (fun x => desktop_step l x) with (desktop_step l).
  destruct (for_in t1 (desktop_step l) w1) as [[[]|e] w2]; [|done].
  rewrite for_in_app. unfold bind. rewrite for_in_map. simpl.
  change (fun x => ios_step l x) with (ios_step l).
  destruct (for_in t2 (ios_step l) w2) as [[[]|e] w3]; [|done].
  by rewrite for_in_map.
Qed.

Lemma commit_nil src w : commit src w [] (heap w) = w.
Proof. destruct w; unfold commit; simpl. by rewrite !app_nil_r. Qed.

Lemma dirs_commit src w js h : dirs (fs (commit src w js h)) = dirs (fs w).
Proof.
  unfold commit; simpl. generalize (fs w).
  induction js as [|j js IH]; intros f; simpl; [done|]. by rewrite IH.
Qed.

(** A write elsewhere does not change whether a path can be opened. *)
Lemma check_write_put f q c p :
  q <> p -> q <> Str.dirname p ->
  check_write (put_file q c f) p = check_write f p.
Proof.
  intros H1 H2. unfold check_write, put_file; simpl.
  by rewrite !lookup_insert_ne.
Qed.

Lemma entry_error_put f q c src item :
  q <> item.1 -> q <> Str.dirname item.1 ->
  entry_error (put_file q c f) src item = entry_error f src item.
Proof. intros H1 H2. unfold entry_error. by rewrite check_write_put. Qed.

Lemma sound_paths_cons p ps :
  sound_paths (p :: ps) ->
  sound_paths ps /\ Forall (fun q => p <> q /\ p <> Str.dirname q) ps.
Proof.
  intros [Hnd Hdir]. apply NoDup_cons in Hnd as [Hp Hnd].
  apply Forall_cons in Hdir as [_ Hdir]. split; [split; [done|]|].
  - eapply Forall_impl; [exact Hdir|]. intros q Hq Hin. apply Hq. by right.
  - apply Forall_forall. intros q Hq. split.
    + by intros ->.
    + intros ->. apply (proj1 (Forall_forall _ _) Hdir q Hq). by left.
Qed.

Lemma entry_error_none f src item :
  entry_error f src item = None ->
  check_write f item.1 = None /\ png_mode (r_pix src) = true.
Proof.
  unfold entry_error. destruct (check_write f item.1); [done|].
  by destruct (png_mode (r_pix src)).
Qed.

(** The loops on entries none of which is stopped. *)
Lemma run_schedule_ok l src js w :
  icon_at l src (heap w) ->
  Forall (fun j => item_ok j.2 = true) js ->
  Forall (fun j => encodable_of j.1 src j.2 = png_mode (r_pix src)) js ->
  sound_paths (map path_of js) ->
  Forall (fun j => entry_error (fs w) src j.2 = None) js ->
  exists h, icon_at l src h /\ run_schedule l js w = (Return tt, commit src w js h).
Proof.
  revert w. induction js as [|[t item] js IH]; intros w Hi Hok Hu Hs Hw.
  - exists (heap w). by rewrite commit_nil.
  - apply Forall_cons in Hok as [Hok1 Hok]. apply Forall_cons in Hw as [Hw1 Hw].
    apply Forall_cons in Hu as [Hu1 Hu].
    simpl in Hs. apply sound_paths_cons in Hs as [Hs Hfar].
    simpl in Hw1, Hu1. apply entry_error_none in Hw1 as [Hw1 Hmode].
    unfold run_schedule; simpl. unfold bind.
    rewrite (step_of_run _ _ src) by done.
    rewrite Hw1, Hu1, Hmode.
    match goal with
    | |- context [for_in js _ ?w1] =>
        destruct (IH w1) as (h & Hh & Hrun);
          [by apply heap_step_icon_at | done | done | done | |]
    end.
    { simpl. apply Forall_forall. intros j Hj.
      rewrite entry_error_put.
      - by apply (proj1 (Forall_forall _ _) Hw).
      - apply (proj1 (Forall_forall _ _) Hfar (path_of j)).
        apply list_elem_of_fmap. by exists j.
      - apply (proj1 (Forall_forall _ _) Hfar (path_of j)).
        apply list_elem_of_fmap. by exists j. }
    exists h. split; [done|].
    unfold run_schedule in Hrun. rewrite Hrun. f_equal.
    unfold commit; simpl. by rewrite <- !app_assoc.
Qed.

(** The loops stopped by the first entry that cannot be written. *)
Lemma run_schedule_fail l src pre j post e w :
  icon_at l src (heap w) ->
  Forall (fun j => item_ok j.2 = true) (pre ++ [j]) ->
  Forall (fun j => encodable_of j.1 src j.2 = png_mode (r_pix src)) (pre ++ [j]) ->
  sound_paths (map path_of (pre ++ [j])) ->
  Forall (fun j => entry_error (fs w) src j.2 = None) pre ->
  entry_error (fs w) src j.2 = Some e ->
  exists h, icon_at l src h /\
    run_schedule l (pre ++ j :: post) w
    = (Raise e, spoil (path_of j) (commit src w pre h)).
Proof.
  revert w. induction pre as [|[t item] pre IH]; intros w Hi Hok Hu Hs Hw He.
  - apply Forall_cons in Hok as [Hok1 _]. apply Forall_cons in Hu as [Hu1 _].
    destruct j as [t item]. simpl in *.
    exists (heap_step l src item.2 (heap w)).
    split; [by apply heap_step_icon_at|].
    unfold run_schedule; simpl. unfold bind.
    rewrite (step_of_run _ _ src) by done.
    unfold spoil, commit, path_of; simpl. unfold entry_error in He.
    destruct (check_write (fs w) item.1) as [e'|].
    + injection He as ->. unfold set_heap. by rewrite !app_nil_r.
    + rewrite Hu1. destruct (png_mode (r_pix src)); [done|].
      injection He as <-. by rewrite !app_nil_r.
  - simpl in Hok, Hu, Hs. apply Forall_cons in Hok as [Hok1 Hok].
    apply Forall_cons in Hw as [Hw1 Hw]. apply Forall_cons in Hu as [Hu1 Hu].
    apply sound_paths_cons in Hs as [Hs Hfar].
    simpl in Hw1, Hu1. apply entry_error_none in Hw1 as [Hw1 Hmode].
    unfold run_schedule; simpl. unfold bind.
    rewrite (step_of_run _ _ src) by done.
    rewrite Hw1, Hu1, Hmode.
    assert (Hfar' : forall j', j' ∈ (pre ++ [j])%list ->
              item.1 <> path_of j' /\ item.1 <> Str.dirname (path_of j')).
    { intros j' Hj'. apply (proj1 (Forall_forall _ _) Hfar (path_of j')).
      apply list_elem_of_fmap. by exists j'. }
    match goal with
    | |- context [for_in (pre ++ j :: post) _ ?w1] =>
        destruct (IH w1) as (h & Hh & Hrun);
          [by apply heap_step_icon_at | done | done | done | | |]
    end.
    { simpl. apply Forall_forall. intros j' Hj'.
      rewrite entry_error_put; [by apply (proj1 (Forall_forall _ _) Hw) | |];
        apply Hfar'; apply elem_of_app; by left. }
    { simpl. rewrite entry_error_put; [done | |];
        apply Hfar'; apply elem_of_app; right; by apply list_elem_of_singleton. }
    exists h. split; [done|].
    unfold run_schedule in Hrun. rewrite Hrun. f_equal. f_equal.
    unfold commit; simpl. by rewrite <- !app_assoc.
Qed.

(** Either no entry of a list is stopped, or there is a first one that
    is. *)
Lemma first_failure f src (js : list (table_id * (string * Z))) :
  Forall (fun j => entry_error f src j.2 = None) js \/
  exists pre j post e,
    js = (pre ++ j :: post)%list /\
    Forall (fun j => entry_error f src j.2 = None) pre /\
    entry_error f src j.2 = Some e.
Proof.
  induction js as [|j js IH]; [by left|].
  destruct (entry_error f src j.2) as [e|] eqn:Hj.
  - right. by exists [], j, js, e.
  - destruct IH as [IH | (pre & j' & post & e & -> & Hpre & He)].
    + left. by constructor.
    + right. exists (j :: pre), j', post, e. repeat split; [|done]. by constructor.
Qed.

Lemma open_run f src w :
  fs w = f -> source f = Some src ->
  exists o, raster_of o = Some src /\
    Image.open "icon.png" w
    = (Return (length (heap w)), set_heap (heap w ++ [o]) w).
Proof.
  intros <-. unfold source, decode, Image.open.
  destruct (files (fs w) !! "icon.png") as [c|]; [simpl|done].
  destruct (header c) as [[sz [px|]]|]; try done.
  intros [= <-]. by exists (Lazy sz (Some px)).
Qed.

Lemma icon_at_fresh h o src :
  raster_of o = Some src -> icon_at (length h) src (h ++ [o]).
Proof.
  intros Ho. exists o. split; [|done].
  rewrite lookup_app_r by done. by rewrite Nat.sub_diag.
Qed.

Lemma sound_paths_prefix (a b : list string) : sound_paths (a ++ b) -> sound_paths a.
Proof.
  intros [Hnd Hdir]. apply NoDup_app in Hnd as (Hnd & _ & _).
  apply Forall_app in Hdir as [Hdir _]. split; [done|].
  eapply Forall_impl; [exact Hdir|]. intros p Hp Hin. apply Hp.
  apply elem_of_app. by left.
Qed.

Lemma runnable_prefix src pre j post :
  runnable src (pre ++ j :: post) -> runnable src (pre ++ [j]).
Proof.
  intros (Hok & Hu & Hs).
  replace (pre ++ j :: post)%list with ((pre ++ [j]) ++ post)%list in *
    by (by rewrite <- app_assoc).
  apply Forall_app in Hok as [Hok _]. apply Forall_app in Hu as [Hu _].
  repeat split; try done.
  - change (map path_of ((pre ++ [j]) ++ post)) with (path_of <$> ((pre ++ [j]) ++ post)) in Hs.
    rewrite fmap_app in Hs. by apply sound_paths_prefix in Hs as [? ?].
  - change (map path_of ((pre ++ [j]) ++ post)) with (path_of <$> ((pre ++ [j]) ++ post)) in Hs.
    rewrite fmap_app in Hs. by apply sound_paths_prefix in Hs as [? ?].
Qed.

(** A run with a decodable source in which no entry is stopped. *)
Lemma generate_ok t1 t2 t3 w src :
  source (fs w) = Some src ->
  runnable src (schedule t1 t2 t3) ->
  Forall (fun j => entry_error (fs w) src j.2 = None) (schedule t1 t2 t3) ->
  exists h, icon_at (length (heap w)) src h /\
    generate_icons_with t1 t2 t3 w = (Return tt, commit src w (schedule t1 t2 t3) h).
Proof.
  intros Hsrc (Hok & Hu & Hs) Hall.
  destruct (open_run _ _ w eq_refl Hsrc) as (o & Ho & Hopen).
  pose proof (icon_at_fresh (heap w) o src Ho) as Hi.
  rewrite generate_icons_with_schedule. unfold bind. rewrite Hopen.
  destruct (run_schedule_ok (length (heap w)) src (schedule t1 t2 t3)
              (set_heap (heap w ++ [o]) w) Hi Hok Hu Hs Hall) as (h & Hh & Hrun).
  exists h. split; [done|]. by rewrite Hrun.
Qed.

(** A run with a decodable source that meets an entry it cannot write. *)
Lemma generate_fail t1 t2 t3 w src pre j post e :
  source (fs w) = Some src ->
  runnable src (schedule t1 t2 t3) ->
  schedule t1 t2 t3 = (pre ++ j :: post)%list ->
  Forall (fun j => entry_error (fs w) src j.2 = None) pre ->
  entry_error (fs w) src j.2 = Some e ->
  exists h, icon_at (length (heap w)) src h /\
    generate_icons_with t1 t2 t3 w
    = (Raise e, spoil (path_of j) (commit src w pre h)).
Proof.
  intros Hsrc Hrunnable Hsplit Hpre He.
  destruct (open_run _ _ w eq_refl Hsrc) as (o & Ho & Hopen).
  pose proof (icon_at_fresh (heap w) o src Ho) as Hi.
  rewrite generate_icons_with_schedule. unfold bind. rewrite Hopen.
  rewrite Hsplit in Hrunnable |- *.
  apply runnable_prefix in Hrunnable as (Hok & Hu & Hs).
  destruct (run_schedule_fail (length (heap w)) src pre j post e
              (set_heap (heap w ++ [o]) w) Hi Hok Hu Hs Hpre He) as (h & Hh & Hrun).
  exists h. split; [done|]. by rewrite Hrun.
Qed.

(** Without a decodable source the run stops before the first write. *)
Lemma generate_no_source w :
  source (fs w) = None ->
  exists h, generate_icons w = (Raise (open_error (fs w)), set_heap h w).
Proof.
  unfold source, open_error, generate_icons, generate_icons_with, bind at 1, Image.open.
  destruct (files (fs w) !! "icon.png") as [c|] eqn:Hc; simpl.
  - unfold decode. destruct (header c) as [[sz [px|]]|] eqn:Hh; intros Hnone; try done.
    + exists (heap w ++ [Lazy sz None])%list. simpl.
      unfold bind, Image.resize, bind, Image.load; simpl.
      rewrite lookup_app_r by done. by rewrite Nat.sub_diag.
    + exists (heap w). by rewrite set_heap_id.
  - intros _. exists (heap w). rewrite set_heap_id.
    by destruct (bool_decide (is_Some (dirs (fs w) !! "icon.png"))).
Qed.

(* ===================================================================== *)
(** ** Files left by a sequence of writes *)
(* ===================================================================== *)

Lemma outputs_paths src js : (outputs src js).*1 = map path_of js.
Proof. unfold outputs. induction js as [|j js IH]; simpl; [done|]. by rewrite <- IH. Qed.

Lemma files_commit src w js h :
  files (fs (commit src w js h)) = write_all (outputs src js) (files (fs w)).
Proof.
  unfold commit, write_all, outputs; simpl. generalize (fs w).
  induction js as [|j js IH]; intros f; simpl; [done|]. by rewrite IH.
Qed.

Lemma lookup_write_all_notin kvs (m : gmap string content) p :
  p ∉ kvs.*1 -> write_all kvs m !! p = m !! p.
Proof.
  revert m. induction kvs as [|kv kvs IH]; intros m Hp; simpl; [done|].
  simpl in Hp. apply not_elem_of_cons in Hp as [Hne Hp].
  unfold write_all in *; simpl. rewrite IH by done. by rewrite lookup_insert_ne.
Qed.

Lemma lookup_write_all_in kvs (m : gmap string content) kv :
  NoDup kvs.*1 -> kv ∈ kvs -> write_all kvs m !! kv.1 = Some kv.2.
Proof.
  revert m. induction kvs as [|kv' kvs IH]; intros m Hnd Hkv; simpl.
  - by apply elem_of_nil in Hkv.
  - simpl in Hnd. apply NoDup_cons in Hnd as [Hnotin Hnd].
    apply elem_of_cons in Hkv as [-> | Hkv].
    + unfold write_all; simpl.
      pose proof (lookup_write_all_notin kvs (<[kv'.1 := kv'.2]> m) kv'.1 Hnotin) as H.
      unfold write_all in H. rewrite H. by rewrite lookup_insert_eq.
    + unfold write_all in *; simpl. by apply IH.
Qed.

Lemma lookup_commit_notin src w js h p :
  p ∉ map path_of js ->
  files (fs (commit src w js h)) !! p = files (fs w) !! p.
Proof.
  intros Hp. rewrite files_commit. apply lookup_write_all_notin.
  by rewrite outputs_paths.
Qed.

Lemma lookup_commit_in src w js h j :
  NoDup (map path_of js) -> j ∈ js ->
  files (fs (commit src w js h)) !! path_of j = Some (output_of j.1 src j.2).
Proof.
  intros Hnd Hj. rewrite files_commit.
  apply (lookup_write_all_in (outputs src js) _ (path_of j, output_of j.1 src j.2)).
  - by rewrite outputs_paths.
  - unfold outputs. apply list_elem_of_fmap. by exists j.
Qed.

(** Writes elsewhere do not change whether a path can be opened. *)
Lemma check_write_commit src w js h p :
  p ∉ map path_of js -> Str.dirname p ∉ map path_of js ->
  check_write (fs (commit src w js h)) p = check_write (fs w) p.
Proof.
  unfold commit; simpl. generalize (fs w).
  induction js as [|j js IH]; intros f Hp Hd; simpl; [done|].
  simpl in Hp, Hd. apply not_elem_of_cons in Hp as [Hp1 Hp].
  apply not_elem_of_cons in Hd as [Hd1 Hd].
  rewrite IH by done. by apply check_write_put.
Qed.

(** A path that could be opened can still be opened when the
    directories are the same and no file has gone. *)
Lemma check_write_still (f f' : filesystem) p :
  dirs f' = dirs f ->
  (is_Some (files f !! p) -> is_Some (files f' !! p)) ->
  check_write f p = None -> check_write f' p = None.
Proof.
  intros Hd Hf. unfold check_write. rewrite Hd.
  destruct (dirs f !! Str.dirname p) as [b|]; [|by case_bool_decide].
  case_bool_decide; [done|].
  destruct b; simpl; [done|].
  case_bool_decide as H1; [|done]. intros _.
  by rewrite (bool_decide_eq_true_2 _ (Hf H1)).
Qed.

(** What a failed attempt leaves. *)
Lemma dirs_truncate p f : dirs (truncate_file p f) = dirs f.
Proof. unfold truncate_file. by destruct (files f !! p). Qed.

Lemma lookup_truncate_ne p f q :
  p <> q -> files (truncate_file p f) !! q = files f !! q.
Proof.
  intros Hne. unfold truncate_file. destruct (files f !! p); [|done].
  simpl. by rewrite lookup_insert_ne.
Qed.

Lemma dirs_spoil p w : dirs (fs (spoil p w)) = dirs (fs w).
Proof.
  unfold spoil; simpl. destruct (check_write (fs w) p); [done|]. apply dirs_truncate.
Qed.

Lemma lookup_spoil_ne p w q :
  p <> q -> files (fs (spoil p w)) !! q = files (fs w) !! q.
Proof.
  intros Hne. unfold spoil; simpl. destruct (check_write (fs w) p); [done|].
  by apply lookup_truncate_ne.
Qed.

Lemma fs_spoil_refused p w e :
  check_write (fs w) p = Some e -> fs (spoil p w) = fs w.
Proof. intros H. unfold spoil; simpl. by rewrite H. Qed.

(* ===================================================================== *)
(** ** Facts about the three tables *)
(* ===================================================================== *)

Lemma ico_single r s :
  r_size r = (s, s) -> 0 < s <= 256 -> Image.ico_frames r [(s, s)] = [r].
Proof.
  intros Hr Hs. unfold Image.ico_frames; simpl. rewrite Hr; simpl.
  rewrite Z.ltb_irrefl.
  replace (256 <? s) with false by lia. simpl.
  by rewrite decide_True.
Qed.

Lemma output_expected j src :
  conventional j = true -> output_of j.1 src j.2 = expected src j.2.
Proof.
  destruct j as [t [p s]]. unfold conventional, expected; simpl.
  destruct (Str.endswith p ".ico") eqn:Hsuf.
  - intros H. apply andb_prop in H as [H Hle]. apply andb_prop in H as [Ht Hpos].
    apply bool_decide_eq_true in Ht as ->. simpl.
    unfold desktop_output; simpl. rewrite Hsuf. simpl.
    rewrite ico_single; [done | apply r_size_resized_of | lia].
  - intros H. apply bool_decide_eq_true in H.
    assert (Hp : plain_output src (p, s) = Png (resized_of src s)).
    { unfold plain_output; simpl. by rewrite H. }
    destruct t; simpl; unfold desktop_output; simpl; by rewrite ?Hsuf.
Qed.

Lemma encodable_conventional j src :
  conventional j = true -> encodable_of j.1 src j.2 = png_mode (r_pix src).
Proof.
  destruct j as [t [p s]]. unfold conventional; simpl.
  destruct (Str.endswith p ".ico") eqn:Hsuf.
  - intros H. apply andb_prop in H as [H Hle]. apply andb_prop in H as [Ht Hpos].
    apply bool_decide_eq_true in Ht as ->. simpl.
    unfold desktop_encodable; simpl. rewrite Hsuf. unfold Image.encodable; simpl.
    rewrite ico_single; [|apply r_size_resized_of | lia]. simpl.
    by rewrite andb_true_r, png_mode_resized_of.
  - intros H. apply bool_decide_eq_true in H.
    assert (Hp : plain_encodable src (p, s) = png_mode (r_pix src)).
    { unfold plain_encodable; simpl. rewrite H. simpl. apply png_mode_resized_of. }
    destruct t; simpl; unfold desktop_encodable; simpl; by rewrite ?Hsuf.
Qed.

Lemma gen_schedule_conventional :
  Forall (fun j => conventional j = true) gen_schedule.
Proof. apply (bool_decide_unpack _). by vm_compute. Qed.

Lemma gen_schedule_ok : Forall (fun j => item_ok j.2 = true) gen_schedule.
Proof. apply (bool_decide_unpack _). by vm_compute. Qed.

Lemma gen_paths_nodup : NoDup (map path_of gen_schedule).
Proof. apply (bool_decide_unpack _). by vm_compute. Qed.

Lemma gen_paths_sound : sound_paths (map path_of gen_schedule).
Proof. split; apply (bool_decide_unpack _); by vm_compute. Qed.

Lemma icon_png_not_output : "icon.png" ∉ map path_of gen_schedule.
Proof. apply (bool_decide_unpack _). by vm_compute. Qed.

Lemma gen_schedule_paths : map path_of gen_schedule = all_entries.*1.
Proof. reflexivity. Qed.

Lemma gen_schedule_items : map snd gen_schedule = all_entries.
Proof. reflexivity. Qed.

Lemma gen_schedule_runnable src : runnable src gen_schedule.
Proof.
  split; [apply gen_schedule_ok|]. split; [|apply gen_paths_sound].
  eapply Forall_impl; [apply gen_schedule_conventional|].
  intros j Hj. by apply encodable_conventional.
Qed.

Lemma in_all_entries item :
  item ∈ all_entries -> exists t, (t, item) ∈ gen_schedule.
Proof.
  rewrite <- gen_schedule_items. intros H.
  apply list_elem_of_fmap in H as ([t i] & -> & H). by exists t.
Qed.

Lemma decoded_size_expected src item :
  decoded_size (expected src item) = Some (item.2, item.2).
Proof.
  unfold expected, decoded_size, decode.
  destruct (Str.endswith item.1 ".ico"); simpl; by rewrite r_size_resized_of.
Qed.

Lemma decode_expected src item :
  decode (expected src item) = Some (resized_of src item.2).
Proof.
  unfold expected, decode.
  destruct (Str.endswith item.1 ".ico"); simpl; by destruct (resized_of src item.2).
Qed.

(* ===================================================================== *)
(** ** Runs of [generate_icons] *)
(* ===================================================================== *)

(** Every run of the script, by cases on the source. *)
Lemma generate_icons_cases w :
  (source (fs w) = None /\
   exists h, generate_icons w = (Raise (open_error (fs w)), set_heap h w))
  \/
  (exists src r done rest h w',
     source (fs w) = Some src /\
     generate_icons w = (r, w') /\
     gen_schedule = (done ++ rest)%list /\
     icon_at (length (heap w)) src h /\
     Forall (fun j => entry_error (fs w) src j.2 = None) done /\
     ending src w done rest h r w').
Proof.
  destruct (source (fs w)) as [src|] eqn:Hsrc.
  - right.
    destruct (first_failure (fs w) src gen_schedule)
      as [Hall | (pre & j & post & e & Hsplit & Hpre & He)].
    + destruct (generate_ok sizes ios_sizes store_sizes w src Hsrc
                  (gen_schedule_runnable src) Hall) as (h & Hh & Hrun).
      exists src, (Return tt), gen_schedule, [], h, (commit src w gen_schedule h).
      rewrite app_nil_r. by repeat split.
    + destruct (generate_fail sizes ios_sizes store_sizes w src pre j post e Hsrc
                  (gen_schedule_runnable src) Hsplit Hpre He) as (h & Hh & Hrun).
      exists src, (Raise e), pre, (j :: post), h, (spoil (path_of j) (commit src w pre h)).
      repeat split; try done. by exists j, post.
  - left. split; [done|]. apply (generate_no_source w Hsrc).
Qed.

(** A successful run had a decodable source and wrote the whole schedule. *)
Lemma generate_icons_success w w' :
  generate_icons w = (Return tt, w') ->
  exists src h,
    source (fs w) = Some src /\
    icon_at (length (heap w)) src h /\
    Forall (fun j => entry_error (fs w) src j.2 = None) gen_schedule /\
    w' = commit src w gen_schedule h.
Proof.
  intros Hrun.
  destruct (generate_icons_cases w)
    as [(_ & h & H) | (src & r & done & rest & h & w1 & Hsrc & H & Hsplit & Hi & Hw & Hr)].
  - congruence.
  - rewrite Hrun in H. injection H as <- <-. destruct Hr as [-> ->].
    rewrite app_nil_r in Hsplit. subst done. by exists src, h.
Qed.

(** After a successful run every entry's path holds that entry's image. *)
Lemma success_lookup w w' src item :
  generate_icons w = (Return tt, w') ->
  source (fs w) = Some src ->
  item ∈ all_entries ->
  files (fs w') !! item.1 = Some (expected src item).
Proof.
  intros Hrun Hsrc Hin.
  destruct (generate_icons_success _ _ Hrun) as (src' & h & Hsrc' & _ & _ & ->).
  assert (src' = src) as -> by congruence.
  destruct (in_all_entries _ Hin) as [t Ht].
  pose proof (lookup_commit_in src w gen_schedule h (t, item) gen_paths_nodup Ht) as Hl.
  change (path_of (t, item)) with item.1 in Hl. rewrite Hl.
  f_equal. apply (output_expected (t, item)).
  by apply (proj1 (Forall_forall _ _) gen_schedule_conventional).
Qed.

(* --------------------------------------------------------------------- *)
(** *** What a processed prefix of the schedule leaves behind *)

Lemma commit_trace src w js h :
  trace (commit src w js h) = (trace w ++ (snd <$> js).*1)%list.
Proof.
  unfold commit; simpl. f_equal.
  induction js as [|j js IH]; simpl; [done|]. by rewrite IH.
Qed.

Lemma commit_stdout src w js h :
  stdout (commit src w js h) = (stdout w ++ (progress_of <$> (snd <$> js)))%list.
Proof.
  unfold commit; simpl. f_equal.
  induction js as [|j js IH]; simpl; [done|]. by rewrite IH.
Qed.

Lemma paths_of_items (js : list (table_id * (string * Z))) :
  map path_of js = (snd <$> js).*1.
Proof. induction js as [|j js IH]; simpl; [done|]. f_equal. exact IH. Qed.

Lemma split_items done rest :
  gen_schedule = (done ++ rest)%list ->
  all_entries = ((snd <$> done) ++ (snd <$> rest))%list.
Proof.
  intros H. rewrite <- gen_schedule_items, H.
  change (map snd (done ++ rest)) with (snd <$> (done ++ rest)).
  by rewrite fmap_app.
Qed.

Lemma split_nodup done rest :
  gen_schedule = (done ++ rest)%list ->
  NoDup (map path_of done) /\
  forall j, j ∈ rest -> path_of j ∉ map path_of done.
Proof.
  intros H. pose proof gen_paths_nodup as Hnd. rewrite H in Hnd.
  change (map path_of (done ++ rest)) with (path_of <$> (done ++ rest)) in Hnd.
  rewrite fmap_app in Hnd. apply NoDup_app in Hnd as (Hd & Hdisj & _).
  split; [done|]. intros j Hj Hin.
  apply (Hdisj (path_of j)); [done|].
  apply list_elem_of_fmap. by exists j.
Qed.

Lemma prefix_lookup_done src w done rest h :
  gen_schedule = (done ++ rest)%list ->
  Forall (fun item => files (fs (commit src w done h)) !! item.1
                      = Some (expected src item)) (snd <$> done).
Proof.
  intros H. apply Forall_fmap, Forall_forall. intros j Hj.
  destruct (split_nodup _ _ H) as [Hnd _].
  change (files (fs (commit src w done h)) !! path_of j = Some (expected src j.2)).
  rewrite (lookup_commit_in src w done h j Hnd Hj). f_equal. apply output_expected.
  apply (proj1 (Forall_forall _ _) gen_schedule_conventional).
  rewrite H. apply elem_of_app. by left.
Qed.

Lemma prefix_lookup_rest src w done rest h :
  gen_schedule = (done ++ rest)%list ->
  Forall (fun item => files (fs (commit src w done h)) !! item.1
                      = files (fs w) !! item.1) (snd <$> rest).
Proof.
  intros H. apply Forall_fmap, Forall_forall. intros j Hj.
  destruct (split_nodup _ _ H) as [_ Hout].
  change (files (fs (commit src w done h)) !! path_of j = files (fs w) !! path_of j).
  apply lookup_commit_notin. by apply Hout.
Qed.

(** What the final world of a run on a decodable source holds. *)
Lemma ending_facts src w done rest h r w' :
  gen_schedule = (done ++ rest)%list ->
  ending src w done rest h r w' ->
  stdout w' = (stdout w ++ (progress_of <$> (snd <$> done)))%list /\
  trace w' = (trace w ++ (snd <$> done).*1)%list /\
  heap w' = h /\
  dirs (fs w') = dirs (fs w) /\
  Forall (fun it => files (fs w') !! it.1 = Some (expected src it)) (snd <$> done) /\
  Forall (fun it => files (fs w') !! it.1 = files (fs w) !! it.1) (tl (snd <$> rest)) /\
  (forall q, q ∉ all_entries.*1 -> files (fs w') !! q = files (fs w) !! q) /\
  (forall j e, head rest = Some j -> check_write (fs w) (path_of j) = Some e ->
     files (fs w') !! path_of j = files (fs w) !! path_of j).
Proof.
  intros Hsplit Hend.
  assert (Hout : forall q, q ∉ all_entries.*1 -> q ∉ map path_of done).
  { intros q Hq Hin. apply Hq. rewrite <- gen_schedule_paths, Hsplit.
    change (map path_of (done ++ rest)) with (path_of <$> (done ++ rest)).
    rewrite fmap_app. apply elem_of_app. by left. }
  destruct r as [[]|e].
  - destruct Hend as [-> ->].
    split; [apply commit_stdout|]. split; [apply commit_trace|].
    split; [done|]. split; [apply dirs_commit|].
    split; [by apply (prefix_lookup_done src w done [] h)|].
    split; [constructor|]. split; [|done].
    intros q Hq. by apply lookup_commit_notin, Hout.
  - destruct Hend as (j & post & -> & He & ->).
    destruct (split_nodup _ _ Hsplit) as [Hnd Hdisj].
    assert (Hj : path_of j ∉ map path_of done).
    { apply Hdisj. by left. }
    assert (Hjall : path_of j ∈ all_entries.*1).
    { rewrite <- gen_schedule_paths, Hsplit.
      apply (list_elem_of_fmap_2 path_of). apply elem_of_app. right. by left. }
    split; [apply commit_stdout|]. split; [apply commit_trace|].
    split; [done|]. split; [by rewrite dirs_spoil, dirs_commit|].
    split; [|split; [|split]].
    + pose proof (prefix_lookup_done src w done (j :: post) h Hsplit) as Hd.
      apply Forall_fmap, Forall_forall. intros j' Hj'.
      apply Forall_fmap in Hd.
      pose proof (proj1 (Forall_forall _ _) Hd j' Hj') as Hl.
      unfold compose in Hl |- *. cbv beta in Hl |- *.
      rewrite lookup_spoil_ne; [done|].
      intros Heq. apply Hj. rewrite Heq.
      apply (list_elem_of_fmap_2 path_of _ _ Hj').
    + pose proof (prefix_lookup_rest src w done (j :: post) h Hsplit) as Hr.
      rewrite fmap_cons in Hr. apply Forall_cons in Hr as [_ Hr].
      rewrite fmap_cons. cbn [tl]. apply Forall_fmap, Forall_forall. intros j' Hj'.
      apply Forall_fmap in Hr.
      pose proof (proj1 (Forall_forall _ _) Hr j' Hj') as Hl.
      unfold compose in Hl |- *. cbv beta in Hl |- *.
      rewrite lookup_spoil_ne; [done|].
      pose proof gen_paths_nodup as Hall. rewrite Hsplit in Hall.
      change (map path_of (done ++ j :: post)) with (path_of <$> (done ++ j :: post)) in Hall.
      rewrite fmap_app, fmap_cons in Hall.
      apply NoDup_app in Hall as (_ & _ & Hall). apply NoDup_cons in Hall as [Hnot _].
      intros Heq. apply Hnot. rewrite Heq.
      apply (list_elem_of_fmap_2 path_of _ _ Hj').
    + intros q Hq. rewrite lookup_spoil_ne; [by apply lookup_commit_notin, Hout|].
      by intros <-.
    + intros j' e' [= <-] Hc.
      assert (Hc' : check_write (fs (commit src w done h)) (path_of j) = Some e').
      { rewrite check_write_commit; [done | done |].
        intros Hin. destruct gen_paths_sound as [_ Hdir].
        apply (proj1 (Forall_forall _ _) Hdir (path_of j)).
        - rewrite Hsplit. apply (list_elem_of_fmap_2 path_of).
          apply elem_of_app. right. by left.
        - rewrite Hsplit.
          change (map path_of (done ++ j :: post)) with (path_of <$> (done ++ j :: post)).
          rewrite fmap_app. apply elem_of_app. by left. }
      rewrite (fs_spoil_refused _ _ _ Hc'). by apply lookup_commit_notin.
Qed.

Lemma accepted_app f src (l1 l2 : list (string * Z)) :
  Forall (fun it => entry_error f src it = None) l1 ->
  accepted f src (l1 ++ l2) = (l1 ++ accepted f src l2)%list /\
  refusal f src (l1 ++ l2) = refusal f src l2.
Proof.
  induction 1 as [|it l1 Hit _ [IH1 IH2]]; simpl; [done|].
  by rewrite Hit, IH1, IH2.
Qed.

Lemma resized_from_source src s : from_source src (resized_of src s).
Proof. unfold from_source, resized_of. case_decide; [by left | by right]. Qed.

(** Everything a run leaves behind, in terms of the entries it gets
    through. *)
Lemma run_summary w :
  exists rest,
    all_entries = (processed (fs w) ++ rest)%list /\
    (generate_icons w).1 = verdict (fs w) /\
    match verdict (fs w) with Return _ => rest = [] | Raise _ => rest <> [] end /\
    stdout (generate_icons w).2 = (stdout w ++ (progress_of <$> processed (fs w)))%list /\
    trace (generate_icons w).2 = (trace w ++ (processed (fs w)).*1)%list /\
    dirs (fs (generate_icons w).2) = dirs (fs w) /\
    (forall q, q ∉ all_entries.*1 ->
       files (fs (generate_icons w).2) !! q = files (fs w) !! q) /\
    Forall (fun it => files (fs (generate_icons w).2) !! it.1 = files (fs w) !! it.1)
           (tl rest) /\
    (forall src, source (fs w) = Some src ->
       icon_at (length (heap w)) src (heap (generate_icons w).2) /\
       Forall (fun it => files (fs (generate_icons w).2) !! it.1 = Some (expected src it))
              (processed (fs w))).
Proof.
  unfold verdict, processed.
  destruct (generate_icons_cases w)
    as [(Hsrc & h & H)
       | (src & r & done & rest & h & w' & Hsrc & H & Hsplit & Hi & Hw & Hend)].
  - exists all_entries. rewrite H, Hsrc; simpl. rewrite !app_nil_r.
    repeat split; try done.
    apply Forall_forall. by intros.
  - exists (snd <$> rest). rewrite H, Hsrc; cbn [fst snd].
    destruct (ending_facts src w done rest h r w' Hsplit Hend)
      as (Hout & Htr & Hheap & Hdirs & Hdone & Hrest & Hframe & _).
    assert (Hw' : Forall (fun it : string * Z => entry_error (fs w) src it = None)
                    (snd <$> done)).
    { apply Forall_fmap. eapply Forall_impl; [exact Hw|]. by intros j Hj. }
    destruct (accepted_app (fs w) src (snd <$> done) (snd <$> rest) Hw') as [Ha Hr'].
    rewrite (split_items _ _ Hsplit), Ha, Hr'.
    assert (Hacc : accepted (fs w) src (snd <$> rest) = [] /\
                   match refusal (fs w) src (snd <$> rest) with
                   | Some e => Raise e | None => Return tt end = r /\
                   match r with Return _ => snd <$> rest = [] | Raise _ => snd <$> rest <> [] end).
    { destruct r as [[]|e].
      - destruct Hend as [-> _]. done.
      - destruct Hend as (j & post & -> & He & _); simpl. by rewrite He. }
    destruct Hacc as (-> & -> & Hr). rewrite app_nil_r.
    repeat split; try done.
    + intros q Hq. apply Hframe. by rewrite (split_items _ _ Hsplit).
    + by simplify_eq.
    + by simplify_eq.
Qed.

Lemma processed_elem f it : it ∈ processed f -> it ∈ all_entries.
Proof.
  unfold processed. destruct (source f) as [src|]; [|by intros ?%elem_of_nil].
  generalize all_entries. intros l.
  induction l as [|x l IH]; simpl; [done|].
  destruct (entry_error f src x); [by intros ?%elem_of_nil|].
  intros [-> | H]%elem_of_cons; [by left | right; by apply IH].
Qed.

(** A run that got through every path got through every entry. *)
Lemma whole_trace (done rest : list (string * Z)) (t : list string) :
  all_entries = (done ++ rest)%list ->
  (t ++ done.*1)%list = (t ++ all_entries.*1)%list -> rest = [].
Proof.
  intros Hsplit Heq%app_inv_head%(f_equal length).
  rewrite Hsplit, !length_fmap, length_app in Heq.
  destruct rest; [done|]. simpl in Heq. lia.
Qed.

(* --------------------------------------------------------------------- *)

(** C1: after a successful run of [generate_icons], every (path, size)
    entry of the three tables has a file at [path] whose decoded pixel
    dimensions are exactly size x size, whatever the size of the source
    (it need not be square). *)
Theorem C1_outputs_have_declared_size w w' :
  generate_icons w = (Return tt, w') ->
  forall path size, (path, size) ∈ all_entries ->
    exists c, files (fs w') !! path = Some c /\ decoded_size c = Some (size, size).
Proof.
  intros Hrun path size Hin.
  destruct (generate_icons_success _ _ Hrun) as (src & h & Hsrc & _ & _ & _).
  exists (expected src (path, size)). split.
  - apply (success_lookup w w' src (path, size) Hrun Hsrc Hin).
  - apply decoded_size_expected.
Qed.

Lemma C1_witness :
  exists c, files (fs (generate_icons (boot demo_fs)).2) !! "ios/AppIcon-512@2x.png" = Some c
            /\ decoded_size c = Some (1024, 1024).
Proof.
  apply (C1_outputs_have_declared_size (boot demo_fs) (generate_icons (boot demo_fs)).2).
  - vm_compute. reflexivity.
  - apply (bool_decide_unpack _). vm_compute. exact I.
Defined.

(** C2: when [icon.png] is missing, or is there but does not decode, the
    run raises before any write: the file system is unchanged, nothing is
    written or printed, and the exception leaves the script without the
    closing message. *)
Theorem C2_bad_source_writes_nothing w :
  (files (fs w) !! "icon.png" = None \/
   exists c, files (fs w) !! "icon.png" = Some c /\ decode c = None) ->
  exists e w',
    generate_icons w = (Raise e, w') /\
    main w = (Raise e, w') /\
    fs w' = fs w /\ trace w' = trace w /\ stdout w' = stdout w.
Proof.
  intros Hbad.
  assert (Hsrc : source (fs w) = None).
  { unfold source. destruct Hbad as [-> | (c & -> & Hc)]; done. }
  destruct (generate_no_source w Hsrc) as (h & Hrun).
  exists (open_error (fs w)), (set_heap h w). split; [done|]. split; [|done].
  unfold main, bind. by rewrite Hrun.
Qed.

Lemma C2_witness :
  exists e w',
    generate_icons (boot empty_fs) = (Raise e, w') /\
    main (boot empty_fs) = (Raise e, w') /\
    fs w' = empty_fs /\ trace w' = [] /\ stdout w' = [].
Proof.
  apply (C2_bad_source_writes_nothing (boot empty_fs)).
  left. vm_compute. reflexivity.
Defined.

(** C4: exactly one entry has a name ending in [.ico], namely
    [icon.ico]; after a successful run that file is an ICO holding a
    single 32x32 image and every other listed output is a PNG; and for
    each entry the loop that handles it writes an ICO or a PNG according
    to the suffix test alone. *)
Theorem C4_single_ico_rest_png w w' :
  generate_icons w = (Return tt, w') ->
  List.filter (fun e => Str.endswith e.1 ".ico") all_entries = [("icon.ico", 32)] /\
  (exists r, files (fs w') !! "icon.ico" = Some (Ico [r]) /\ r_size r = (32, 32)) /\
  (forall path size, (path, size) ∈ all_entries -> path <> "icon.ico" ->
     exists r, files (fs w') !! path = Some (Png r)) /\
  (forall src j, j ∈ gen_schedule ->
     output_of j.1 src j.2
     = if Str.endswith j.2.1 ".ico" then Ico [resized_of src j.2.2]
       else Png (resized_of src j.2.2)).
Proof.
  intros Hrun.
  destruct (generate_icons_success _ _ Hrun) as (src & h & Hsrc & _ & _ & _).
  split; [reflexivity|]. split; [|split].
  - exists (resized_of src 32). split; [|apply r_size_resized_of].
    apply (success_lookup w w' src ("icon.ico", 32) Hrun Hsrc).
    apply (bool_decide_unpack _). by vm_compute.
  - intros path size Hin Hne. exists (resized_of src size).
    pose proof (success_lookup w w' src (path, size) Hrun Hsrc Hin) as Hl.
    change ((path, size).1) with path in Hl. rewrite Hl.
    unfold expected; simpl.
    assert (Hsuf : Forall (fun e : string * Z =>
              Str.endswith e.1 ".ico" = true -> e.1 = "icon.ico") all_entries).
    { apply (bool_decide_unpack _). by vm_compute. }
    destruct (Str.endswith path ".ico") eqn:E; [|done].
    exfalso. apply Hne.
    by apply (proj1 (Forall_forall _ _) Hsuf (path, size) Hin).
  - intros src' j Hj. apply (output_expected j).
    by apply (proj1 (Forall_forall _ _) gen_schedule_conventional).
Qed.

Lemma C4_witness :
  exists r, files (fs (generate_icons (boot demo_fs)).2) !! "icon.ico" = Some (Ico [r])
            /\ r_size r = (32, 32).
Proof.
  apply (C4_single_ico_rest_png (boot demo_fs) (generate_icons (boot demo_fs)).2).
  vm_compute. reflexivity.
Defined.

(** C5: after a successful run, a second run on the resulting file
    system succeeds as well; it writes every output path again, and each
    output has the same decoded dimensions after the second run as after
    the first, namely those of its entry. *)
Theorem C5_second_run w w1 :
  generate_icons w = (Return tt, w1) ->
  forall v, fs v = fs w1 ->
  exists w2,
    generate_icons v = (Return tt, w2) /\
    trace w2 = (trace v ++ all_entries.*1)%list /\
    forall path size, (path, size) ∈ all_entries ->
      exists c1 c2,
        files (fs w1) !! path = Some c1 /\ files (fs w2) !! path = Some c2 /\
        decoded_size c1 = Some (size, size) /\ decoded_size c2 = Some (size, size).
Proof.
  intros Hrun v Hv.
  destruct (generate_icons_success _ _ Hrun) as (src & h & Hsrc & _ & Hw & Hw1).
  assert (Hsrc' : source (fs v) = Some src).
  { rewrite Hv, Hw1. unfold source.
    rewrite lookup_commit_notin by apply icon_png_not_output. exact Hsrc. }
  assert (Hw' : Forall (fun j => entry_error (fs v) src j.2 = None) gen_schedule).
  { apply Forall_forall. intros j Hj.
    pose proof (proj1 (Forall_forall _ _) Hw j Hj) as He.
    apply entry_error_none in He as [Hc Hm].
    unfold entry_error. rewrite Hm.
    rewrite (check_write_still (fs w) (fs v) j.2.1); [done | | | done].
    - by rewrite Hv, Hw1, dirs_commit.
    - intros _. rewrite Hv, Hw1.
      change (j.2.1) with (path_of j).
      by rewrite (lookup_commit_in src w gen_schedule h j gen_paths_nodup Hj). }
  destruct (generate_ok sizes ios_sizes store_sizes v src Hsrc'
              (gen_schedule_runnable src) Hw') as (h2 & _ & Hrun2).
  exists (commit src v gen_schedule h2).
  split; [done|]. split; [apply commit_trace|].
  intros path size Hin.
  exists (expected src (path, size)), (expected src (path, size)).
  split; [apply (success_lookup w w1 src (path, size) Hrun Hsrc Hin)|].
  split; [apply (success_lookup v _ src (path, size) Hrun2 Hsrc' Hin)|].
  split; apply decoded_size_expected.
Qed.

Lemma C5_witness :
  exists w2,
    generate_icons (generate_icons (boot demo_fs)).2 = (Return tt, w2) /\
    trace w2 = (trace (generate_icons (boot demo_fs)).2 ++ all_entries.*1)%list /\
    forall path size, (path, size) ∈ all_entries ->
      exists c1 c2,
        files (fs (generate_icons (boot demo_fs)).2) !! path = Some c1 /\
        files (fs w2) !! path = Some c2 /\
        decoded_size c1 = Some (size, size) /\ decoded_size c2 = Some (size, size).
Proof.
  apply (C5_second_run (boot demo_fs) (generate_icons (boot demo_fs)).2).
  - vm_compute. reflexivity.
  - reflexivity.
Defined.

(** C7: once [icon.png] has been opened as [main_icon], no loop step
    changes the raster that object denotes (the first step loads its
    pixels in place, which leaves the decoded image as it is; every
    resize allocates a new object); the object still denotes the decoded
    source when the run ends, however it ends; and the image in every
    file written was computed from the source's own pixels, never from
    an earlier resized image. *)
Theorem C7_source_never_modified w src :
  source (fs w) = Some src ->
  (forall t l item v,
     icon_at l src (heap v) -> item_ok item = true ->
     icon_at l src (heap (step_of t l item v).2)) /\
  icon_at (length (heap w)) src (heap (generate_icons w).2) /\
  exists done,
    trace (generate_icons w).2 = (trace w ++ done.*1)%list /\
    Forall (fun it =>
              exists r, from_source src r /\ r_size r = (it.2, it.2) /\
                (files (fs (generate_icons w).2) !! it.1 = Some (Png r) \/
                 files (fs (generate_icons w).2) !! it.1 = Some (Ico [r]))) done.
Proof.
  intros Hsrc.
  destruct (run_summary w) as (rest & _ & _ & _ & _ & Htr & _ & _ & _ & Hsome).
  destruct (Hsome src Hsrc) as [Hicon Hdone].
  split; [|split; [done|]].
  - intros t l item v Hi Hok. rewrite (step_of_run t l src item v Hi Hok).
    destruct (check_write (fs v) item.1); [by apply heap_step_icon_at|].
    destruct (encodable_of t src item); by apply heap_step_icon_at.
  - exists (processed (fs w)). split; [done|].
    eapply Forall_impl; [exact Hdone|].
    intros it Hit; cbv beta in Hit. exists (resized_of src it.2).
    split; [apply resized_from_source|]. split; [apply r_size_resized_of|].
    rewrite Hit. unfold expected.
    destruct (Str.endswith it.1 ".ico"); [by right | by left].
Qed.

Lemma C7_witness :
  icon_at 0%nat {| r_size := (512, 300); r_pix := Stored 0 |}
    (heap (generate_icons (boot demo_fs)).2).
Proof.
  apply (C7_source_never_modified (boot demo_fs)
           {| r_size := (512, 300); r_pix := Stored 0 |}).
  vm_compute. reflexivity.
Defined.

(** C9: the tables hold 5, 15 and 10 entries, 30 in all, with pairwise
    distinct paths; so in any run the paths written are pairwise
    distinct (none is written twice), and at the end every entry
    processed still holds its own image. *)
Theorem C9_thirty_distinct_paths :
  length sizes = 5%nat /\ length ios_sizes = 15%nat /\
  length store_sizes = 10%nat /\ length all_entries = 30%nat /\
  NoDup all_entries.*1 /\
  forall w, exists done,
    done `prefix_of` all_entries /\
    trace (generate_icons w).2 = (trace w ++ done.*1)%list /\
    NoDup done.*1 /\
    match source (fs w) with
    | Some src =>
        Forall (fun item => files (fs (generate_icons w).2) !! item.1
                            = Some (expected src item)) done
    | None => done = []
    end.
Proof.
  assert (Hall : NoDup all_entries.*1).
  { rewrite <- gen_schedule_paths. apply gen_paths_nodup. }
  repeat (split; [done|]).
  intros w.
  destruct (run_summary w) as (rest & Hsplit & _ & _ & _ & Htr & _ & _ & _ & Hsome).
  exists (processed (fs w)).
  split; [by exists rest|]. split; [done|]. split.
  - rewrite Hsplit, fmap_app in Hall. by apply NoDup_app in Hall as (? & _).
  - destruct (source (fs w)) as [src|] eqn:Hsrc.
    + by destruct (Hsome src eq_refl).
    + unfold processed. by rewrite Hsrc.
Qed.


(** Any of the 30 entries can be the one that stops the run: with a
    directory at its path, the entries before it can be written and it
    cannot. *)
Lemma any_entry_can_stop_the_run :
  Forall (fun k : nat =>
            match source (fs_blocking (all_entries.*1 !!! k)) with
            | Some src =>
                Forall (fun it => entry_error (fs_blocking (all_entries.*1 !!! k)) src it = None)
                       (take k all_entries) /\
                Forall (fun it => entry_error (fs_blocking (all_entries.*1 !!! k)) src it
                                  = Some (IsADirectoryError it.1))
                       (take 1 (drop k all_entries))
            | None => False
            end) (seq 0 30).
Proof. apply (bool_decide_unpack _). by vm_compute. Qed.

(** C3: when the source decodes and [item] is the first entry whose
    output cannot be written (its file cannot be opened for writing, or
    the encoder refuses the image), the run raises that very error
    (nothing catches it, and the script ends without its closing
    message); the entries before [item] have each been written once, in
    order, and hold their images; no entry after [item] has been written:
    their paths are as they were, and so is the path of [item] when its
    file could not be opened. *)
Theorem C3_fail_fast w src pre item post e :
  source (fs w) = Some src ->
  all_entries = (pre ++ item :: post)%list ->
  Forall (fun it => entry_error (fs w) src it = None) pre ->
  entry_error (fs w) src item = Some e ->
  exists w',
    generate_icons w = (Raise e, w') /\
    main w = (Raise e, w') /\
    trace w' = (trace w ++ pre.*1)%list /\
    stdout w' = (stdout w ++ (progress_of <$> pre))%list /\
    Forall (fun it => files (fs w') !! it.1 = Some (expected src it)) pre /\
    Forall (fun it => files (fs w') !! it.1 = files (fs w) !! it.1) post /\
    (is_Some (check_write (fs w) item.1) ->
     files (fs w') !! item.1 = files (fs w) !! item.1).
Proof.
  intros Hsrc Hsplit Hpre He.
  pose proof gen_schedule_items as Hitems. rewrite Hsplit in Hitems.
  change (map snd gen_schedule) with (snd <$> gen_schedule) in Hitems.
  apply fmap_app_inv in Hitems as (done & rest & -> & Hrest & Hsched).
  symmetry in Hrest. apply fmap_cons_inv in Hrest as (j & post' & -> & -> & ->).
  destruct (generate_fail sizes ios_sizes store_sizes w src done j post' e
              Hsrc (gen_schedule_runnable src) Hsched) as (h & Hh & Hrun); [|done|].
  { apply Forall_forall. intros j' Hj'.
    apply (proj1 (Forall_forall _ _) Hpre j'.2).
    apply list_elem_of_fmap. by exists j'. }
  assert (Hend : ending src w done (j :: post') h (Raise e)
                   (spoil (path_of j) (commit src w done h))).
  { by exists j, post'. }
  destruct (ending_facts src w done (j :: post') h _ _ Hsched Hend)
    as (Hout & Htr & _ & _ & Hdone & Hpost & _ & Hitem).
  exists (spoil (path_of j) (commit src w done h)).
  split; [done|]. split; [unfold main, bind, generate_icons; by rewrite Hrun|].
  split; [done|]. split; [done|]. split; [done|]. split; [done|].
  intros [e' He']. by apply (Hitem j e').
Qed.

Lemma C3_witness :
  exists w',
    generate_icons (boot blocked_fs) = (Raise (IsADirectoryError "64x64.png"), w') /\
    main (boot blocked_fs) = (Raise (IsADirectoryError "64x64.png"), w') /\
    trace w' = ([] ++ [("32x32.png", 32)].*1)%list /\
    stdout w' = ([] ++ (progress_of <$> [("32x32.png", 32)]))%list /\
    Forall (fun it => files (fs w') !! it.1
                      = Some (expected {| r_size := (512, 512); r_pix := Stored 0 |} it))
           [("32x32.png", 32)] /\
    Forall (fun it => files (fs w') !! it.1 = files blocked_fs !! it.1)
           (drop 2 all_entries) /\
    (is_Some (check_write blocked_fs "64x64.png") ->
     files (fs w') !! "64x64.png" = files blocked_fs !! "64x64.png").
Proof.
  apply (C3_fail_fast (boot blocked_fs) {| r_size := (512, 512); r_pix := Stored 0 |}
           [("32x32.png", 32)] ("64x64.png", 64) (drop 2 all_entries)
           (IsADirectoryError "64x64.png")).
  - vm_compute. reflexivity.
  - reflexivity.
  - apply (bool_decide_unpack _). vm_compute. exact I.
  - vm_compute. reflexivity.
Defined.

(** C10, as stated, fails: with the source in place, a working directory
    that accepts new files and no [ios] directory, but a directory
    sitting at [64x64.png], the run stops at that entry of the first
    table, after one file, not at the first iOS entry after five. *)
Lemma C10_counterexample :
  source blocked_fs = Some {| r_size := (512, 512); r_pix := Stored 0 |} /\
  dirs blocked_fs !! "" = Some true /\
  dirs blocked_fs !! "ios" = None /\
  (generate_icons (boot blocked_fs)).1 = Raise (IsADirectoryError "64x64.png") /\
  trace (generate_icons (boot blocked_fs)).2 = ["32x32.png"] /\
  trace (generate_icons (boot blocked_fs)).2 <> sizes.*1.
Proof. repeat split; by vm_compute. Qed.

(** C10, as amended: the tables are processed in the order desktop, iOS,
    Windows Store, each in its listed order.  So when the source decodes,
    each of the 5 desktop files can be written (its file can be opened
    and the encoder accepts the image) and there is no [ios] directory,
    the run raises at the first iOS entry: by then exactly the 5 desktop
    files have been written, in table order, and no iOS or Windows Store
    path has been touched. *)
Theorem C10_missing_ios_directory w src :
  source (fs w) = Some src ->
  Forall (fun it => entry_error (fs w) src it = None) sizes ->
  dirs (fs w) !! "ios" = None ->
  exists e w',
    generate_icons w = (Raise e, w') /\
    (e = FileNotFoundError "ios/AppIcon-20x20@1x.png" \/
     e = NotADirectoryError "ios/AppIcon-20x20@1x.png") /\
    trace w' = (trace w ++ sizes.*1)%list /\
    stdout w' = (stdout w ++ (progress_of <$> sizes))%list /\
    Forall (fun it => files (fs w') !! it.1 = Some (expected src it)) sizes /\
    Forall (fun it => files (fs w') !! it.1 = files (fs w) !! it.1)
           (ios_sizes ++ store_sizes).
Proof.
  intros Hsrc Hdesk Hios.
  set (done := map (pair Desktop) sizes).
  set (j := (Ios, ("ios/AppIcon-20x20@1x.png", 20))).
  set (post := (map (pair Ios) (tl ios_sizes) ++ map (pair Store) store_sizes)%list).
  assert (Hsched : gen_schedule = (done ++ j :: post)%list) by reflexivity.
  assert (Hc : exists e, check_write (fs w) "ios/AppIcon-20x20@1x.png" = Some e /\
             (e = FileNotFoundError "ios/AppIcon-20x20@1x.png" \/
              e = NotADirectoryError "ios/AppIcon-20x20@1x.png")).
  { unfold check_write.
    change (Str.dirname "ios/AppIcon-20x20@1x.png") with "ios". rewrite Hios.
    case_bool_decide; eauto. }
  destruct Hc as (e & Hc & He).
  assert (Hje : entry_error (fs w) src j.2 = Some e).
  { unfold entry_error.
    change (j.2.1) with "ios/AppIcon-20x20@1x.png". by rewrite Hc. }
  destruct (generate_fail sizes ios_sizes store_sizes w src done j post e
              Hsrc (gen_schedule_runnable src) Hsched) as (h & Hh & Hrun); [|done|].
  { apply Forall_forall. intros j' Hj'.
    apply (proj1 (Forall_forall _ _) Hdesk j'.2).
    apply list_elem_of_fmap in Hj' as (it & -> & Hit). done. }
  assert (Hend : ending src w done (j :: post) h (Raise e)
                   (spoil (path_of j) (commit src w done h))).
  { by exists j, post. }
  destruct (ending_facts src w done (j :: post) h _ _ Hsched Hend)
    as (Hout & Htr & _ & _ & Hdone & Hpost & _ & Hitem).
  exists e, (spoil (path_of j) (commit src w done h)).
  split; [done|]. split; [done|]. split; [done|]. split; [done|]. split; [done|].
  change (ios_sizes ++ store_sizes)%list
    with (("ios/AppIcon-20x20@1x.png", 20) :: (tl ios_sizes ++ store_sizes))%list.
  constructor; [by apply (Hitem j e)|]. exact Hpost.
Qed.

Lemma C10_witness :
  exists e w',
    generate_icons (boot no_ios_fs) = (Raise e, w') /\
    (e = FileNotFoundError "ios/AppIcon-20x20@1x.png" \/
     e = NotADirectoryError "ios/AppIcon-20x20@1x.png") /\
    trace w' = ([] ++ sizes.*1)%list /\
    stdout w' = ([] ++ (progress_of <$> sizes))%list /\
    Forall (fun it => files (fs w') !! it.1
                      = Some (expected {| r_size := (512, 512); r_pix := Stored 0 |} it)) sizes /\
    Forall (fun it => files (fs w') !! it.1 = files no_ios_fs !! it.1)
           (ios_sizes ++ store_sizes).
Proof.
  apply (C10_missing_ios_directory (boot no_ios_fs)
           {| r_size := (512, 512); r_pix := Stored 0 |}).
  - vm_compute. reflexivity.
  - apply (bool_decide_unpack _). vm_compute. exact I.
  - vm_compute. reflexivity.
Defined.

(* --------------------------------------------------------------------- *)
(** *** Rearranged tables *)

Lemma all_entries_regular : Forall (fun e => entry_regular e = true) all_entries.
Proof. apply (bool_decide_unpack _). by vm_compute. Qed.

Lemma only_ico_entry :
  Forall (fun e : string * Z => Str.endswith e.1 ".ico" = true -> e = ("icon.ico", 32))
         all_entries.
Proof. apply (bool_decide_unpack _). by vm_compute. Qed.

Lemma schedule_items t1 t2 t3 : (schedule t1 t2 t3).*2 = (t1 ++ t2 ++ t3)%list.
Proof.
  unfold schedule. rewrite !fmap_app.
  assert (H : forall (t : table_id) (l : size_table), (map (pair t) l).*2 = l).
  { intros t l. induction l as [|x l IH]; simpl; [done|]. f_equal. exact IH. }
  by rewrite !H.
Qed.

(** With Pillow's default sizes a 32x32 image gives an ICO of three
    frames, the image itself being the largest. *)
Lemma default_frames r :
  r_size r = (32, 32) ->
  Image.ico_frames r Image.default_ico_sizes
  = [Image.resample LANCZOS r (16, 16); Image.resample LANCZOS r (24, 24); r].
Proof. destruct r as [sz px]; simpl. intros ->. by vm_compute. Qed.

(** Whatever loop handles an entry of the tables, the file it writes has
    the format its name announces and decodes to the same image, and the
    encoder accepts it exactly when it accepts the source's mode. *)
Lemma output_kind t src e :
  e ∈ all_entries ->
  format_of (output_of t src e) = format_of (expected src e) /\
  decode (output_of t src e) = decode (expected src e) /\
  encodable_of t src e = png_mode (r_pix src).
Proof.
  intros He.
  pose proof (proj1 (Forall_forall _ _) all_entries_regular e He) as Hreg.
  pose proof (proj1 (Forall_forall _ _) only_ico_entry e He) as Hico.
  apply andb_prop in Hreg as [_ Hreg].
  destruct (Str.endswith e.1 ".ico") eqn:Hsuf.
  - rewrite (Hico Hsuf). destruct t.
    + pose proof (output_expected (Desktop, ("icon.ico", 32)) src eq_refl) as Ho.
      pose proof (encodable_conventional (Desktop, ("icon.ico", 32)) src eq_refl) as Hn.
      cbn [fst snd] in Ho, Hn. by rewrite Ho, Hn.
    + change (output_of Ios src ("icon.ico", 32))
        with (Ico (Image.ico_frames (resized_of src 32) Image.default_ico_sizes)).
      change (encodable_of Ios src ("icon.ico", 32))
        with (forallb (fun fr => png_mode (r_pix fr))
                (Image.ico_frames (resized_of src 32) Image.default_ico_sizes)).
      change (expected src ("icon.ico", 32)) with (Ico [resized_of src 32]).
      rewrite (default_frames _ (r_size_resized_of src 32)).
      pose proof (r_size_resized_of src 32) as Hsz.
      pose proof (png_mode_resized_of src 32) as Hm.
      destruct (resized_of src 32) as [sz px]. simpl in Hsz, Hm. subst sz.
      split; [done|]. split; [by vm_compute|].
      simpl. rewrite Hm. by destruct (png_mode (r_pix src)).
    + change (output_of Store src ("icon.ico", 32))
        with (Ico (Image.ico_frames (resized_of src 32) Image.default_ico_sizes)).
      change (encodable_of Store src ("icon.ico", 32))
        with (forallb (fun fr => png_mode (r_pix fr))
                (Image.ico_frames (resized_of src 32) Image.default_ico_sizes)).
      change (expected src ("icon.ico", 32)) with (Ico [resized_of src 32]).
      rewrite (default_frames _ (r_size_resized_of src 32)).
      pose proof (r_size_resized_of src 32) as Hsz.
      pose proof (png_mode_resized_of src 32) as Hm.
      destruct (resized_of src 32) as [sz px]. simpl in Hsz, Hm. subst sz.
      split; [done|]. split; [by vm_compute|].
      simpl. rewrite Hm. by destruct (png_mode (r_pix src)).
  - assert (Hc : conventional (t, e) = true).
    { unfold conventional; simpl. by rewrite Hsuf. }
    pose proof (output_expected (t, e) src Hc) as Ho.
    pose proof (encodable_conventional (t, e) src Hc) as Hn.
    cbn [fst snd] in Ho, Hn. by rewrite Ho, Hn.
Qed.

Lemma sound_paths_perm (ps ps' : list string) :
  ps ≡ₚ ps' -> sound_paths ps -> sound_paths ps'.
Proof.
  intros Hperm [Hnd Hdir]. split; [by rewrite <- Hperm|].
  apply Forall_forall. intros p Hp. rewrite <- Hperm in Hp |- *.
  by apply (proj1 (Forall_forall _ _) Hdir).
Qed.

(** C6: for every rearrangement of the 30 entries within and across the
    three tables, if the script succeeds then so does the run on the
    rearranged tables, and it leaves the same outcome: the same
    directories, the same set of files, and at every path a file of the
    same format that decodes to the same image (hence the same
    dimensions); the progress lines (and the writes) are the same up to
    their order. *)
Theorem C6_rearranged_tables t1 t2 t3 w w' :
  (t1 ++ t2 ++ t3)%list ≡ₚ all_entries ->
  generate_icons w = (Return tt, w') ->
  exists w'',
    generate_icons_with t1 t2 t3 w = (Return tt, w'') /\
    dirs (fs w'') = dirs (fs w') /\
    (forall path, is_Some (files (fs w'') !! path) <-> is_Some (files (fs w') !! path)) /\
    (forall path, format_of <$> files (fs w'') !! path
                  = format_of <$> files (fs w') !! path) /\
    (forall path, decode <$> files (fs w'') !! path
                  = decode <$> files (fs w') !! path) /\
    stdout w'' ≡ₚ stdout w' /\
    trace w'' ≡ₚ trace w'.
Proof.
  intros Hperm Hrun.
  destruct (generate_icons_success _ _ Hrun) as (src & h & Hsrc & _ & Hw & ->).
  set (js := schedule t1 t2 t3).
  assert (Hitems : snd <$> js = (t1 ++ t2 ++ t3)%list) by apply schedule_items.
  assert (Hin : forall j, j ∈ js -> j.2 ∈ all_entries).
  { intros j Hj. rewrite <- Hperm, <- Hitems. apply list_elem_of_fmap. by exists j. }
  assert (Hpaths : map path_of js ≡ₚ map path_of gen_schedule).
  { rewrite paths_of_items, Hitems, Hperm. by rewrite gen_schedule_paths. }
  assert (Hrunnable : runnable src js).
  { split; [|split].
    - apply Forall_forall. intros j Hj.
      pose proof (proj1 (Forall_forall _ _) all_entries_regular _ (Hin j Hj)) as Hr.
      by apply andb_prop in Hr as [? _].
    - apply Forall_forall. intros j Hj. by apply output_kind, Hin.
    - apply (sound_paths_perm (map path_of gen_schedule)); [done|apply gen_paths_sound]. }
  assert (Hw' : Forall (fun j => entry_error (fs w) src j.2 = None) js).
  { apply Forall_forall. intros j Hj.
    destruct (in_all_entries _ (Hin j Hj)) as [t Ht].
    apply (proj1 (Forall_forall _ _) Hw (t, j.2) Ht). }
  destruct (generate_ok t1 t2 t3 w src Hsrc Hrunnable Hw') as (h' & _ & Hrun').
  exists (commit src w js h'). split; [done|].
  assert (Hnd : NoDup (map path_of js)) by (by destruct Hrunnable as (_ & _ & [? _])).
  assert (Hfile : forall path,
    (exists t t' e, e ∈ all_entries /\
       files (fs (commit src w js h')) !! path = Some (output_of t' src e) /\
       files (fs (commit src w gen_schedule h)) !! path = Some (output_of t src e)) \/
    (files (fs (commit src w js h')) !! path = files (fs w) !! path /\
     files (fs (commit src w gen_schedule h)) !! path = files (fs w) !! path)).
  { intros path.
    destruct (decide (path ∈ map path_of gen_schedule)) as [Hp | Hp].
    - left. pose proof Hp as Hp'. rewrite <- Hpaths in Hp'.
      apply list_elem_of_fmap in Hp as ([t e] & -> & Hj).
      apply list_elem_of_fmap in Hp' as ([t' e'] & Heq & Hj').
      assert (e' = e) as ->.
      { destruct (in_all_entries _ (Hin _ Hj')) as [t0 Ht0].
        unfold path_of in Heq; simpl in Heq.
        assert (Hidx : forall a b : table_id * (string * Z),
                  a ∈ gen_schedule -> b ∈ gen_schedule ->
                  path_of a = path_of b -> a = b).
        { intros a b Ha Hb Hab.
          apply list_elem_of_lookup in Ha as [i Hi]. apply list_elem_of_lookup in Hb as [k Hk].
          assert (i = k) as ->.
          { apply (NoDup_lookup (map path_of gen_schedule) i k (path_of a) gen_paths_nodup).
            - change (map path_of gen_schedule) with (path_of <$> gen_schedule).
              by rewrite list_lookup_fmap, Hi.
            - change (map path_of gen_schedule) with (path_of <$> gen_schedule).
              by rewrite list_lookup_fmap, Hk, Hab. }
          congruence. }
        by injection (Hidx (t0, e') (t, e) Ht0 Hj (eq_sym Heq)). }
      exists t, t', e. split; [by apply (Hin _ Hj')|]. split.
      + apply (lookup_commit_in src w js h' (t', e) Hnd Hj').
      + apply (lookup_commit_in src w gen_schedule h (t, e) gen_paths_nodup Hj).
    - right. split; apply lookup_commit_notin; [by rewrite Hpaths | done]. }
  split; [by rewrite !dirs_commit|].
  split; [|split; [|split; [|split]]].
  - intros path. destruct (Hfile path) as [(t & t' & e & _ & -> & ->) | [-> ->]]; [|done].
    split; by eauto.
  - intros path. destruct (Hfile path) as [(t & t' & e & He & -> & ->) | [-> ->]]; [|done].
    simpl. f_equal.
    destruct (output_kind t src e He) as (-> & _). by destruct (output_kind t' src e He) as (-> & _).
  - intros path. destruct (Hfile path) as [(t & t' & e & He & -> & ->) | [-> ->]]; [|done].
    simpl. f_equal.
    destruct (output_kind t src e He) as (_ & -> & _).
    by destruct (output_kind t' src e He) as (_ & -> & _).
  - rewrite !commit_stdout. change (snd <$> gen_schedule) with all_entries.
    fold js. by rewrite Hitems, Hperm.
  - rewrite !commit_trace. change (snd <$> gen_schedule) with all_entries.
    fold js. by rewrite Hitems, Hperm.
Qed.

Lemma C6_witness :
  exists w'',
    generate_icons_with sizes_without_ico ios_sizes_with_ico store_sizes (boot demo_fs)
    = (Return tt, w'') /\
    dirs (fs w'') = dirs (fs (generate_icons (boot demo_fs)).2) /\
    (forall path, is_Some (files (fs w'') !! path)
                  <-> is_Some (files (fs (generate_icons (boot demo_fs)).2) !! path)) /\
    (forall path, format_of <$> files (fs w'') !! path
                  = format_of <$> files (fs (generate_icons (boot demo_fs)).2) !! path) /\
    (forall path, decode <$> files (fs w'') !! path
                  = decode <$> files (fs (generate_icons (boot demo_fs)).2) !! path) /\
    stdout w'' ≡ₚ stdout (generate_icons (boot demo_fs)).2 /\
    trace w'' ≡ₚ trace (generate_icons (boot demo_fs)).2.
Proof.
  apply (C6_rearranged_tables sizes_without_ico ios_sizes_with_ico store_sizes
           (boot demo_fs) (generate_icons (boot demo_fs)).2).
  - reflexivity.
  - vm_compute. reflexivity.
Defined.

(* ===================================================================== *)
(** ** Further properties of the script *)
(* ===================================================================== *)

Lemma closing_line_fresh : closing_line ∉ progress_of <$> all_entries.
Proof. apply (bool_decide_unpack _). by vm_compute. Qed.

Lemma closing_line_not_progress f :
  closing_line ∉ progress_of <$> processed f.
Proof.
  intros (it & Heq & Hit)%list_elem_of_fmap. apply closing_line_fresh.
  apply list_elem_of_fmap. exists it. split; [done|]. by apply processed_elem in Hit.
Qed.

(** A run that returned got through every entry of a decodable source. *)
Lemma verdict_return f :
  verdict f = Return tt ->
  exists src, source f = Some src /\ processed f = all_entries.
Proof.
  unfold verdict, processed. destruct (source f) as [src|]; [|done].
  intros H. exists src. split; [done|].
  generalize dependent all_entries. intros l.
  induction l as [|x l IH]; simpl; [done|].
  destruct (entry_error f src x); [done|]. intros H. by rewrite IH.
Qed.

(** X1 (lines 73-75): the script prints its closing line exactly when
    [generate_icons] returned, which is exactly when all 30 files have
    been written; the closing line then comes last, after the 30
    progress lines.  The result and the files of the script are those of
    [generate_icons]. *)
Theorem main_closing_line_iff_all_written w :
  (main w).1 = (generate_icons w).1 /\
  fs (main w).2 = fs (generate_icons w).2 /\
  exists lines,
    stdout (main w).2 = (stdout w ++ lines)%list /\
    (closing_line ∈ lines <-> (main w).1 = Return tt) /\
    (closing_line ∈ lines <-> trace (main w).2 = (trace w ++ all_entries.*1)%list) /\
    (closing_line ∈ lines -> lines = ((progress_of <$> all_entries) ++ [closing_line])%list).
Proof.
  destruct (run_summary w) as (rest & Hsplit & Hres & Hverd & Hout & Htr & _).
  pose proof (closing_line_not_progress (fs w)) as Hfresh.
  unfold main, bind.
  destruct (generate_icons w) as [[[]|e] w'] eqn:E; cbn [fst snd] in *.
  - split; [done|]. split; [done|].
    rewrite <- Hres in Hverd. subst rest. rewrite app_nil_r in Hsplit.
    rewrite <- Hsplit in Hout, Htr.
    exists ((progress_of <$> all_entries) ++ [closing_line])%list.
    simpl. rewrite Hout, Htr, <- app_assoc.
    assert (Hin : closing_line ∈ ((progress_of <$> all_entries) ++ [closing_line])%list).
    { apply elem_of_app. right. by apply list_elem_of_singleton. }
    by repeat split.
  - split; [done|]. split; [done|].
    exists (progress_of <$> processed (fs w)). split; [done|].
    split; [by split|]. split; [split; [done|]|done].
    rewrite Htr. intros Hl. rewrite <- Hres in Hverd.
    by apply (whole_trace _ _ _ Hsplit) in Hl.
Qed.

Lemma main_closing_line_iff_all_written_witness :
  (main (boot no_ios_fs)).1 = (generate_icons (boot no_ios_fs)).1.
Proof. apply (main_closing_line_iff_all_written (boot no_ios_fs)). Defined.

(** X3 (lines 5-71): whatever its outcome, a run creates no directory
    and leaves every file other than the 30 listed outputs as it was; in
    particular the source [icon.png] still decodes to the same image. *)
Theorem generate_icons_touches_only_outputs w :
  dirs (fs (generate_icons w).2) = dirs (fs w) /\
  source (fs (generate_icons w).2) = source (fs w) /\
  forall p, p ∉ all_entries.*1 ->
    files (fs (generate_icons w).2) !! p = files (fs w) !! p.
Proof.
  destruct (run_summary w) as (rest & _ & _ & _ & _ & _ & Hdirs & Hframe & _).
  split; [done|]. split; [|done].
  unfold source. rewrite Hframe; [done|].
  rewrite <- gen_schedule_paths. apply icon_png_not_output.
Qed.

Lemma generate_icons_touches_only_outputs_witness :
  files (fs (generate_icons (boot cluttered_fs)).2) !! "notes.txt"
  = files (fs (boot cluttered_fs)) !! "notes.txt".
Proof.
  apply (generate_icons_touches_only_outputs (boot cluttered_fs)).
  apply (bool_decide_unpack _). vm_compute. exact I.
Defined.

(** X4 (lines 19-28, 49-52, 68-71): the progress lines are truthful in
    every run, including one that fails later: each entry whose line has
    been printed has its file on disk, decoding to the size the line
    states. *)
Theorem progress_lines_truthful w :
  exists done,
    stdout (generate_icons w).2 = (stdout w ++ (progress_of <$> done))%list /\
    Forall (fun it => exists c,
              files (fs (generate_icons w).2) !! it.1 = Some c /\
              decoded_size c = Some (it.2, it.2)) done.
Proof.
  destruct (run_summary w) as (rest & _ & _ & _ & Hout & _ & _ & _ & _ & Hsome).
  exists (processed (fs w)). split; [done|].
  destruct (source (fs w)) as [src|] eqn:Hsrc.
  - destruct (Hsome src eq_refl) as [_ Hfiles].
    eapply Forall_impl; [exact Hfiles|].
    intros it Hit. exists (expected src it). split; [done|]. apply decoded_size_expected.
  - unfold processed. rewrite Hsrc. constructor.
Qed.

(** X7 (lines 19-28, 49-52, 68-71): outputs are overwritten, never
    merged or skipped: two successful runs whose sources decode to the
    same image leave the same content at every output path, whatever was
    at those paths before. *)
Theorem outputs_depend_on_source_only w v :
  source (fs v) = source (fs w) ->
  (generate_icons w).1 = Return tt ->
  (generate_icons v).1 = Return tt ->
  Forall (fun it : string * Z =>
            files (fs (generate_icons v).2) !! it.1
            = files (fs (generate_icons w).2) !! it.1) all_entries.
Proof.
  intros Hsame Hw Hv.
  destruct (run_summary w) as (rw & _ & Hrw & _ & _ & _ & _ & _ & _ & Hfw).
  destruct (run_summary v) as (rv & _ & Hrv & _ & _ & _ & _ & _ & _ & Hfv).
  rewrite Hrw in Hw. rewrite Hrv in Hv.
  apply verdict_return in Hw as (src & Hsrc & Hpw).
  apply verdict_return in Hv as (src' & Hsrc' & Hpv).
  assert (src' = src) as -> by congruence.
  destruct (Hfw src Hsrc) as [_ Hw]. destruct (Hfv src Hsrc') as [_ Hv].
  rewrite Hpw in Hw. rewrite Hpv in Hv.
  apply Forall_forall. intros it Hit.
  rewrite (proj1 (Forall_forall _ _) Hw it Hit).
  by rewrite (proj1 (Forall_forall _ _) Hv it Hit).
Qed.

Lemma outputs_depend_on_source_only_witness :
  Forall (fun it : string * Z =>
            files (fs (generate_icons (boot cluttered_fs)).2) !! it.1
            = files (fs (generate_icons (boot demo_fs)).2) !! it.1) all_entries.
Proof.
  apply (outputs_depend_on_source_only (boot demo_fs) (boot cluttered_fs)).
  - vm_compute. reflexivity.
  - vm_compute. reflexivity.
  - vm_compute. reflexivity.
Defined.

(** X8 (lines 10-71): the image written for an entry depends on its size
    alone, not on its name, format or table: after a successful run, two
    entries of equal size (such as [icon.ico] and [32x32.png]) decode to
    the same image. *)
Theorem equal_sizes_give_equal_images w it1 it2 :
  (generate_icons w).1 = Return tt ->
  it1 ∈ all_entries -> it2 ∈ all_entries -> it1.2 = it2.2 ->
  exists r,
    files (fs (generate_icons w).2) !! it1.1 ≫= decode = Some r /\
    files (fs (generate_icons w).2) !! it2.1 ≫= decode = Some r.
Proof.
  intros Hw H1 H2 Heq.
  destruct (run_summary w) as (rw & _ & Hrw & _ & _ & _ & _ & _ & _ & Hfw).
  rewrite Hrw in Hw.
  apply verdict_return in Hw as (src & Hsrc & Hpw).
  destruct (Hfw src Hsrc) as [_ Hf]. rewrite Hpw in Hf.
  exists (resized_of src it1.2).
  rewrite (proj1 (Forall_forall _ _) Hf it1 H1).
  rewrite (proj1 (Forall_forall _ _) Hf it2 H2). simpl.
  rewrite !decode_expected. by rewrite Heq.
Qed.

Lemma equal_sizes_give_equal_images_witness :
  exists r,
    files (fs (generate_icons (boot demo_fs)).2) !! "icon.ico" ≫= decode = Some r /\
    files (fs (generate_icons (boot demo_fs)).2) !! "32x32.png" ≫= decode = Some r.
Proof.
  apply (equal_sizes_give_equal_images (boot demo_fs) ("icon.ico", 32) ("32x32.png", 32)).
  - vm_compute. reflexivity.
  - apply (bool_decide_unpack _). vm_compute. exact I.
  - apply (bool_decide_unpack _). vm_compute. exact I.
  - reflexivity.
Defined.
